(** * c3nav: location identifiers, area containment, search and
      route-constraint translation

    A shallow embedding of [c3nav/mapdata/models/locations.py] and of the
    settings part of [c3nav/site/views.py], with the properties of the
    specification stated over it.

    Python values are modelled as follows.
    - [str] is [string]; only code points below 256 occur in the patterns
      and constants of the program.
    - [int] is [Z].
    - [float] is IEEE 754 binary64, through the executable specification
      [SpecFloat] of the Standard Library at precision 53 and maximal
      exponent 1024 (round to nearest, ties to even).
    - A call that can raise returns [result]: [Ok v] or [Raise e].
    - The database tables are lists in primary-key order, the cached level
      table is a finite map from level names to levels. *)

From Stdlib Require Import ZArith String Ascii List Bool Lia SpecFloat.
From Stdlib Require Import DecimalString DecimalPos Sorted.
From stdpp Require Import base option list gmap strings.

Local Open Scope string_scope.
Local Open Scope list_scope.
Local Open Scope Z_scope.

(** ** Python primitives *)

Module Py.

(** The exceptions that the modelled code can raise. *)
Inductive exn : Type :=
| OverflowError
| ZeroDivisionError
| ValueError.

Inductive result (A : Type) : Type :=
| Ok (v : A)
| Raise (e : exn).
Global Arguments Ok {A} v.
Global Arguments Raise {A} e.

Definition bind {A B : Type} (r : result A) (k : A -> result B) : result B :=
  match r with
  | Ok v => k v
  | Raise e => Raise e
  end.

(** *** Strings *)

(** [c in 'a'..'z'] and the like, on code points. *)
Definition in_range (lo hi c : ascii) : bool :=
  ((N_of_ascii lo <=? N_of_ascii c) && (N_of_ascii c <=? N_of_ascii hi))%N.

Definition is_digit (c : ascii) : bool := in_range "0" "9" c.

(** ASCII lower-casing, the case folding of a case-insensitive
    [LIKE] match. *)
Definition lower_char (c : ascii) : ascii :=
  if in_range "A" "Z" c then ascii_of_N (N_of_ascii c + 32) else c.

Fixpoint lower (s : string) : string :=
  match s with
  | EmptyString => EmptyString
  | String c s' => String (lower_char c) (lower s')
  end.

(** [s.startswith(p)] *)
Definition startswith (s p : string) : bool := String.prefix p s.

(** [needle in hay] on strings. *)
Fixpoint contains (hay needle : string) : bool :=
  String.prefix needle hay ||
  match hay with
  | EmptyString => false
  | String _ hay' => contains hay' needle
  end.

(** [s.split(sep)] for a one-character separator: empty fields are kept,
    and the empty string splits into one empty field. *)
Fixpoint split (sep : ascii) (s : string) : list string :=
  match s with
  | EmptyString => [EmptyString]
  | String c s' =>
      if Ascii.eqb c sep then EmptyString :: split sep s'
      else match split sep s' with
           | w :: ws => String c w :: ws
           | [] => [String c EmptyString]
           end
  end.

(** [s[n:]] *)
Fixpoint drop_chars (n : nat) (s : string) : string :=
  match n, s with
  | O, _ => s
  | S n', String _ s' => drop_chars n' s'
  | S _, EmptyString => EmptyString
  end.

(** [x in t] for a tuple of strings. *)
Definition str_in (x : string) (t : list string) : bool :=
  existsb (String.eqb x) t.

(** [int(s)] for a string of ASCII digits (the only strings the program
    passes to [int]). CPython from 3.11 on refuses a numeral of more than
    [sys.get_int_max_str_digits()] digits, 4300 unless set otherwise, with
    [ValueError]; earlier versions have no bound. The numerals are taken to
    be within the bound: a statement about which exceptions are raised
    says so in a hypothesis. *)
Definition digit_value (c : ascii) : Z :=
  Z.of_N (N_of_ascii c) - 48.

Fixpoint int_of_digits_from (acc : Z) (s : string) : Z :=
  match s with
  | EmptyString => acc
  | String c s' => int_of_digits_from (10 * acc + digit_value c) s'
  end.

Definition int_of_digits (s : string) : Z := int_of_digits_from 0 s.

(** ['%d' % n] for an integer [n]. *)
Definition format_d (n : Z) : string :=
  NilZero.string_of_int (Z.to_int n).

(** *** Floats *)

Definition float : Type := spec_float.

Definition prec : Z := 53.
Definition emax : Z := 1024.

Definition is_zero (x : float) : bool :=
  match x with
  | S754_zero _ => true
  | _ => false
  end.

(** [bool(x)]: every float but the two zeros is true. *)
Definition truthy (x : float) : bool := negb (is_zero x).

(** [x > y] *)
Definition float_gt (x y : float) : bool := SFltb y x.

(** [x <= y] *)
Definition float_le (x y : float) : bool := SFleb x y.

(** [float(n)]: the nearest float, [OverflowError] beyond the range. *)
Definition float_of_int (n : Z) : result float :=
  match binary_normalize prec emax n 0 false with
  | S754_infinity _ => Raise OverflowError
  | f => Ok f
  end.

(** [a / b] on integers: the correctly rounded quotient. CPython raises
    [ZeroDivisionError] for [b = 0] and [OverflowError] when the quotient
    is beyond the range of a float. The operands enter the division as
    integer mantissas with exponent zero; its core aligns them by their
    numbers of digits, so the exact quotient is rounded once, whatever the
    size of the integers. *)
Definition int_truediv (a b : Z) : result float :=
  match a, b with
  | _, Z0 => Raise ZeroDivisionError
  | Z0, _ => Ok (S754_zero (Z.ltb b 0))
  | _, _ =>
      let sa := Z.ltb a 0 in
      let sb := Z.ltb b 0 in
      match SFdiv prec emax (S754_finite sa (Z.to_pos (Z.abs a)) 0)
                            (S754_finite sb (Z.to_pos (Z.abs b)) 0) with
      | S754_infinity _ => Raise OverflowError
      | f => Ok f
      end
  end.

(** [x / y] on floats: [ZeroDivisionError] for a zero divisor, IEEE
    division otherwise. *)
Definition float_truediv (x y : float) : result float :=
  if is_zero y then Raise ZeroDivisionError else Ok (SFdiv prec emax x y).

(** [x * n] for a float [x] and an integer [n]: [n] is converted first. *)
Definition float_mul_int (x : float) (n : Z) : result float :=
  bind (float_of_int n) (fun fn => Ok (SFmul prec emax x fn)).

(** [int(x)]: truncation towards zero; ['%d' % x] converts a float this
    way before printing. *)
Definition int_of_float (x : float) : result Z :=
  match x with
  | S754_zero _ => Ok 0
  | S754_nan => Raise ValueError
  | S754_infinity _ => Raise OverflowError
  | S754_finite s m e =>
      let a := match e with
               | Zneg p => Z.shiftr (Zpos m) (Zpos p)
               | _ => Z.shiftl (Zpos m) e
               end in
      Ok (if s then - a else a)
  end.

End Py.

Import Py.

#[global] Instance result_ret : MRet result := fun _ v => Ok v.
#[global] Instance result_bind : MBind result := fun _ _ k r => Py.bind r k.

(** ** views.py: translation of the route settings *)

Module Views.

(** [ctype_mapping] *)
Definition ctype_mapping : gmap string (list string) :=
  <["yes" := ["up"; "down"]]>
  (<["up" := ["up"]]>
  (<["down" := ["down"]]>
  (<["no" := []]> ∅))).

(** [get_ctypes(prefix, value)] *)
Definition get_ctypes (prefix value : string) : list string :=
  map (fun direction => prefix +:+ "_" +:+ direction)
      (default ["up"; "down"] (ctype_mapping !! value)).

(** [reverse_ctypes(ctypes, name)] *)
Definition reverse_ctypes (ctypes : list string) (name : string) : string :=
  if str_in (name +:+ "_up") ctypes
  then (if str_in (name +:+ "_down") ctypes then "yes" else "up")
  else (if str_in (name +:+ "_down") ctypes then "down" else "no").

(** [request.POST.get(key, dflt)] *)
Definition post_get (post : gmap string string) (key dflt : string) : string :=
  default dflt (post !! key).

(** Lines 152-155 of [main]: [post] is [request.POST]; [stairs],
    [escalators] and [elevators] are the values the three local variables
    hold at that point (defaults, cookie or form). *)
Definition allowed_ctypes (post : gmap string string)
           (stairs escalators elevators : string) : list string :=
  let allowed_ctypes := [""] in
  let allowed_ctypes :=
    allowed_ctypes ++ get_ctypes "stairs" (post_get post "stairs" stairs) in
  let allowed_ctypes :=
    allowed_ctypes ++ get_ctypes "escalator" (post_get post "escalators" escalators) in
  let allowed_ctypes :=
    allowed_ctypes ++ get_ctypes "elevator" (post_get post "elevators" elevators) in
  allowed_ctypes.

End Views.

(** ** locations.py: the data model *)

(** [AreaLocation.LOCATION_TYPES]: the five location types. The field is a
    choice field and [fromfile] rejects every other value. *)
Module LocationType.
Inductive t : Type := level | area | room | roomsegment | poi.

#[global] Instance eq_dec : EqDecision t.
Proof. solve_decision. Defined.
End LocationType.

(** [AreaLocation.LOCATION_TYPES_ORDER] *)
Definition LOCATION_TYPES_ORDER : list LocationType.t :=
  [LocationType.level; LocationType.area; LocationType.room;
   LocationType.roomsegment; LocationType.poi].

(** [titles]: a dictionary from language codes to titles, as its items. *)
Definition Titles : Type := list (string * string).

Module Level.
Record t : Type := Build { name : string; intermediate : bool }.
End Level.

Module LocationGroup.
Record t : Type := Build {
  name : string;
  titles : Titles;
  can_search : bool;
  routing_inclusion : string
}.

(** [LocationGroup.location_id] *)
Definition location_id (self : t) : string := "g:" +:+ name self.
End LocationGroup.

(** The geometry provider: areas of polygons and their intersection. *)
Class Geometry (G : Type) : Type := {
  geom_area : G -> float;
  geom_intersection : G -> G -> G
}.

Module AreaLocation.
Record t (G : Type) : Type := Build {
  name : string;
  titles : Titles;
  location_type : LocationType.t;
  level : string;  (* the name of the level the area lies on *)
  geometry : G;
  groups : list string;
  can_search : bool;
  can_describe : bool;
  routing_inclusion : string
}.
Global Arguments Build {G}.
Global Arguments name {G}.
Global Arguments titles {G}.
Global Arguments location_type {G}.
Global Arguments level {G}.
Global Arguments geometry {G}.
Global Arguments groups {G}.
Global Arguments can_search {G}.
Global Arguments can_describe {G}.
Global Arguments routing_inclusion {G}.

(** [AreaLocation.location_id] *)
Definition location_id {G} (self : t G) : string := name self.

(** [list.index]: the position of the first occurrence. *)
Fixpoint index (x : LocationType.t) (l : list LocationType.t) : option nat :=
  match l with
  | [] => None
  | y :: l' => if decide (y = x) then Some O else S <$> index x l'
  end.

(** [AreaLocation.get_sort_key]: the granularity ordinal. [index] finds
    each of the five types in [LOCATION_TYPES_ORDER] (lemma
    [get_sort_key_index]), so the default is never taken. *)
Definition get_sort_key {G} (arealocation : t G) : nat :=
  default O (index (location_type arealocation) LOCATION_TYPES_ORDER).
End AreaLocation.

Module PointLocation.
Record t : Type := Build { level : Level.t; x : float; y : float }.

(** [PointLocation.location_id]:
    ['c:%s:%d:%d' % (self.level.name, self.x*100, self.y*100)] *)
Definition location_id (self : t) : result string :=
  x100 ← float_mul_int (x self) 100;
  xd ← int_of_float x100;
  y100 ← float_mul_int (y self) 100;
  yd ← int_of_float y100;
  Ok ("c:" +:+ Level.name (level self) +:+ ":" +:+ format_d xd
           +:+ ":" +:+ format_d yd).
End PointLocation.

(** The three kinds of locations. *)
Inductive Location (G : Type) : Type :=
| Point (p : PointLocation.t)
| Area (a : AreaLocation.t G)
| Group (g : LocationGroup.t).
Global Arguments Point {G} p.
Global Arguments Area {G} a.
Global Arguments Group {G} g.

Definition location_id {G} (l : Location G) : result string :=
  match l with
  | Point p => PointLocation.location_id p
  | Area a => Ok (AreaLocation.location_id a)
  | Group g => Ok (LocationGroup.location_id g)
  end.

(** The map data: the cached level table ([get_levels_cached()]) and the
    two tables of locations ([AreaLocation.objects],
    [LocationGroup.objects]). *)
Record MapData (G : Type) : Type := {
  levels : gmap string Level.t;
  arealocations : list (AreaLocation.t G);
  locationgroups : list LocationGroup.t
}.
Global Arguments levels {G}.
Global Arguments arealocations {G}.
Global Arguments locationgroups {G}.

(** ** The coordinate pattern

    [re.match('^c:(?P<level>[a-z0-9-_]+):(?P<x>[0-9]+):(?P<y>[0-9]+)$', name)].
    Each repetition is followed by a character outside its class (the colon)
    or by the end, so a match takes the longest run of each class. Without
    the MULTILINE flag, [$] matches at the end and before a newline that ends
    the string. *)

Definition is_level_char (c : ascii) : bool :=
  in_range "a" "z" c || in_range "0" "9" c
  || Ascii.eqb c "-" || Ascii.eqb c "_".

(** The longest prefix of [s] in the class [p], and what follows it. *)
Fixpoint span (p : ascii -> bool) (s : string) : string * string :=
  match s with
  | EmptyString => (EmptyString, EmptyString)
  | String c s' =>
      if p c then let '(run, rest) := span p s' in (String c run, rest)
      else (EmptyString, s)
  end.

Definition newline : string := String (ascii_of_nat 10) EmptyString.

Definition at_end (s : string) : bool :=
  String.eqb s "" || String.eqb s newline.

(** The groups [level], [x] and [y] of a match, [None] without a match. *)
Definition match_coord (name : string) : option (string * string * string) :=
  match name with
  | String "c" (String ":" r0) =>
      let '(lvl, r1) := span is_level_char r0 in
      match lvl, r1 with
      | String _ _, String ":" r2 =>
          let '(xs, r3) := span is_digit r2 in
          match xs, r3 with
          | String _ _, String ":" r4 =>
              let '(ys, r5) := span is_digit r4 in
              match ys with
              | String _ _ => if at_end r5 then Some (lvl, xs, ys) else None
              | EmptyString => None
              end
          | _, _ => None
          end
      | _, _ => None
      end
  | _ => None
  end.

(** ** locations.py: containment, resolution and search *)

(** The literal [0.99]: the float nearest to 99/100
    (lemma [float_0_99_nearest]). *)
Definition float_0_99 : float := S754_finite false 8917127262193582 (-53).

(** A [for] loop whose body can raise: [body] updates the loop state. *)
Fixpoint for_each {A S : Type} (l : list A) (body : A -> S -> result S)
         (s : S) : result S :=
  match l with
  | [] => Ok s
  | a :: l' => s' ← body a s; for_each l' body s'
  end.

(** The loop body "append [c] when [test c]", and whether the test of an
    element returned [True]. *)
Definition append_if {A : Type} (test : A -> result bool) (c : A) (acc : list A)
  : result (list A) :=
  hit ← test c; Ok (if (hit : bool) then acc ++ [c] else acc).

Definition passes {A : Type} (test : A -> result bool) (c : A) : bool :=
  match test c with
  | Ok true => true
  | _ => false
  end.

(** [sorted(l, key=key, reverse=True)]: stable, largest key first. *)
Fixpoint insert_desc {A : Type} (key : A -> nat) (a : A) (l : list A) : list A :=
  match l with
  | [] => [a]
  | b :: l' =>
      if (key b <=? key a)%nat then a :: b :: l' else b :: insert_desc key a l'
  end.

Definition sorted_desc {A : Type} (key : A -> nat) (l : list A) : list A :=
  foldr (insert_desc key) [] l.

(** [name__icontains=word]: a case-insensitive substring match. *)
Definition icontains (field word : string) : bool :=
  contains (lower field) (lower word).

(** Modelled from the spec: the lookup [titles__icontains] of the JSON field
    of [c3nav.mapdata.fields], which is not among the sources. The
    specification reads it as: the word occurs, without regard to case, in
    some title string. *)
Definition titles_icontains (titles : Titles) (word : string) : bool :=
  existsb (fun item => icontains (snd item) word) titles.

(** [Q(name__icontains=word) | Q(titles__icontains=word)] *)
Definition word_matches (name : string) (titles : Titles) (word : string) : bool :=
  icontains name word || titles_icontains titles word.

(** The test of line 167:
    [intersection_area and intersection_area / my_area > 0.99]. *)
Definition contains_enough (intersection_area my_area : float) : result bool :=
  if truthy intersection_area then
    ratio ← float_truediv intersection_area my_area;
    Ok (float_gt ratio float_0_99)
  else Ok false.

Section Locations.

Context {G : Type} `{Geometry G}.

(** The access boundary [filter_queryset_by_package_access]: which areas
    and groups a request may see. *)
Variable Request : Type.
Variable area_visible : Request -> AreaLocation.t G -> bool.
Variable group_visible : Request -> LocationGroup.t -> bool.

Variable db : MapData G.

Definition filter_areas_by_package_access (request : Request)
           (queryset : list (AreaLocation.t G)) : list (AreaLocation.t G) :=
  List.filter (area_visible request) queryset.

Definition filter_groups_by_package_access (request : Request)
           (queryset : list LocationGroup.t) : list LocationGroup.t :=
  List.filter (group_visible request) queryset.

(** *** [AreaLocation._get_in_areas] *)

(** [AreaLocation.objects.filter(location_type=location_type, level=self.level)] *)
Definition areas_of_type_on_level (location_type : LocationType.t)
           (level : string) : list (AreaLocation.t G) :=
  List.filter (fun a =>
                 bool_decide (AreaLocation.location_type a = location_type)
                 && String.eqb (AreaLocation.level a) level)
              (arealocations db).

Definition _get_in_areas (self : AreaLocation.t G) : result (list (AreaLocation.t G)) :=
  let my_area := geom_area (AreaLocation.geometry self) in
  let in_areas : list (AreaLocation.t G) := [] in
  let area_location_i := AreaLocation.get_sort_key self in
  for_each (rev (take area_location_i LOCATION_TYPES_ORDER))
    (fun location_type (in_areas : list (AreaLocation.t G)) =>
       for_each (areas_of_type_on_level location_type (AreaLocation.level self))
         (fun arealocation (in_areas : list (AreaLocation.t G)) =>
            let intersection_area :=
              geom_area (geom_intersection (AreaLocation.geometry arealocation)
                                           (AreaLocation.geometry self)) in
            hit ← contains_enough intersection_area my_area;
            Ok (if (hit : bool) then in_areas ++ [arealocation] else in_areas))
         in_areas)
    in_areas.

(** *** [get_location] *)

Definition get_location (request : Request) (name : string)
  : result (option (Location G)) :=
  match match_coord name with
  | Some (lvl, xs, ys) =>
      match levels db !! lvl with
      | None => Ok None
      | Some level =>
          x ← int_truediv (int_of_digits xs) 100;
          y ← int_truediv (int_of_digits ys) 100;
          Ok (Some (Point (PointLocation.Build level x y)))
      end
  | None =>
      if startswith name "g:" then
        Ok (Group <$> head (filter_groups_by_package_access request
               (List.filter (fun g => String.eqb (LocationGroup.name g) (drop_chars 2 name))
                            (locationgroups db))))
      else
        Ok (Area <$> head (filter_areas_by_package_access request
               (List.filter (fun a => String.eqb (AreaLocation.name a) name)
                            (arealocations db))))
  end.

(** *** [filter_words] and [search_location] *)

Definition filter_words {A : Type} (name : A -> string) (titles : A -> Titles)
           (queryset : list A) (words : list string) : list A :=
  fold_left (fun queryset word =>
               List.filter (fun item => word_matches (name item) (titles item) word)
                           queryset)
            words queryset.

(** [queryset.exclude(name=n)]: a new query set; the receiver is unchanged. *)
Definition exclude_name {A : Type} (name : A -> string) (n : string)
           (queryset : list A) : list A :=
  List.filter (fun item => negb (String.eqb (name item) n)) queryset.

(** [search.split(' ')[:10]] *)
Definition search_words (search : string) : list string :=
  take 10 (split " " search).

(** The second part of the result list (lines 270-274). The value of
    [queryset.exclude(...)] is dropped there: [queryset] stays what it was. *)
Definition area_matches (request : Request) (location : option (Location G))
           (words : list string) : list (AreaLocation.t G) :=
  let queryset := arealocations db in
  let _excluded :=
    match location with
    | Some (Area a) => exclude_name AreaLocation.name (AreaLocation.name a) queryset
    | _ => queryset
    end in
  sorted_desc AreaLocation.get_sort_key
    (filter_words AreaLocation.name AreaLocation.titles
       (filter_areas_by_package_access request queryset) words).

(** The third part of the result list (lines 276-279). *)
Definition group_matches (request : Request) (location : option (Location G))
           (words : list string) : list LocationGroup.t :=
  let queryset := locationgroups db in
  let _excluded :=
    match location with
    | Some (Group g) => exclude_name LocationGroup.name (LocationGroup.name g) queryset
    | _ => queryset
    end in
  take 10 (filter_words LocationGroup.name LocationGroup.titles
             (filter_groups_by_package_access request queryset) words).

Definition search_location (request : Request) (search : string)
  : result (list (Location G)) :=
  let results := [] in
  location ← get_location request search;
  let results := match location with
                 | Some l => results ++ [l]
                 | None => results
                 end in
  let words := search_words search in
  let results := results ++ (Area <$> area_matches request location words) in
  let results := results ++ (Group <$> group_matches request location words) in
  Ok results.

End Locations.

(** ** Predicates of the specification *)

(** The granularity ordinal of a location type. *)
Definition ordinal (t : LocationType.t) : nat :=
  default O (AreaLocation.index t LOCATION_TYPES_ORDER).

(** The area of the part of [arealocation] that lies in [self], and the
    test of [_get_in_areas] on it. *)
Definition overlap_area {G : Type} `{Geometry G}
           (self arealocation : AreaLocation.t G) : float :=
  geom_area (geom_intersection (AreaLocation.geometry arealocation)
                               (AreaLocation.geometry self)).

Definition overlap_test {G : Type} `{Geometry G}
           (self arealocation : AreaLocation.t G) : result bool :=
  contains_enough (overlap_area self arealocation)
                  (geom_area (AreaLocation.geometry self)).

(** The areas of type [t] on the level of [self] that pass the test. *)
Definition enclosing_of_type {G : Type} `{Geometry G} (db : MapData G)
           (self : AreaLocation.t G) (t : LocationType.t) : list (AreaLocation.t G) :=
  List.filter (passes (overlap_test self))
              (areas_of_type_on_level db t (AreaLocation.level self)).

(** The point [(level, x_raw/100, y_raw/100)]. *)
Definition point_of_raw (level : Level.t) (x_raw y_raw : Z) : result PointLocation.t :=
  x ← int_truediv x_raw 100;
  y ← int_truediv y_raw 100;
  Ok (PointLocation.Build level x y).

(** Whether all characters of [s] are in the class [p]. *)
Fixpoint all_chars (p : ascii -> bool) (s : string) : bool :=
  match s with
  | EmptyString => true
  | String c s' => p c && all_chars p s'
  end.

(** A level name that the coordinate pattern accepts. *)
Definition is_level_name (s : string) : bool :=
  negb (String.eqb s "") && all_chars is_level_char s.

(** The integer that [location_id] prints for the coordinate [raw/100]. *)
Definition printed_raw (raw : Z) : result Z :=
  x ← int_truediv raw 100;
  x100 ← float_mul_int x 100;
  int_of_float x100.

(** [n] times the character [0]. *)
Fixpoint zeros (n : nat) : string :=
  match n with
  | O => ""
  | S n' => String "0" (zeros n')
  end.

(** Every occurrence of [a] in [l] comes before every occurrence of [b]. *)
Definition appears_before {A : Type} (l : list A) (a b : A) : Prop :=
  forall i j : nat, l !! i = Some a -> l !! j = Some b -> (i < j)%nat.

(** Coarsest first: an area of a coarser type (smaller ordinal) comes
    before every area of a finer type. *)
Definition coarsest_first {G : Type} (l : list (AreaLocation.t G)) : Prop :=
  forall a b, In a l -> In b l ->
    (AreaLocation.get_sort_key a < AreaLocation.get_sort_key b)%nat ->
    appears_before l a b.

(** Finest first: an area of a finer type (larger ordinal) comes before
    every area of a coarser type. *)
Definition finest_first {G : Type} (l : list (AreaLocation.t G)) : Prop :=
  forall a b, In a l -> In b l ->
    (AreaLocation.get_sort_key b < AreaLocation.get_sort_key a)%nat ->
    appears_before l a b.

(** The letters of the alphabet, each capital with its small letter. *)
Definition letters : list (ascii * ascii) :=
  combine (list_ascii_of_string "ABCDEFGHIJKLMNOPQRSTUVWXYZ")
          (list_ascii_of_string "abcdefghijklmnopqrstuvwxyz").

(** Two characters that are the same without regard to case. *)
Definition same_letter (c d : ascii) : Prop :=
  c = d \/ In (c, d) letters \/ In (d, c) letters.

(** Two strings that are the same without regard to case. *)
Inductive same_text : string -> string -> Prop :=
| same_text_empty : same_text "" ""
| same_text_String (c d : ascii) (s t : string) :
    same_letter c d -> same_text s t -> same_text (String c s) (String d t).

(** [word] occurs in [field] without regard to case: a part of [field] is
    [word] up to the case of its letters. *)
Definition occurs_in (word field : string) : Prop :=
  exists before part after : string,
    field = before +:+ part +:+ after /\ same_text part word.

(** [c] is not a character of [s]. *)
Definition free_of (c : ascii) (s : string) : Prop :=
  ~ In c (list_ascii_of_string s).

(** [fields] are the fields of [s] between the separators [sep]: joined
    with [sep] they give [s], and none of them holds [sep]. *)
Definition fields_of (sep : ascii) (s : string) (fields : list string) : Prop :=
  fields <> [] /\
  String.concat (String sep "") fields = s /\
  forall field, In field fields -> free_of sep field.

(** [word] occurs in the name or in some title. *)
Definition token_found (name : string) (titles : Titles) (word : string) : Prop :=
  occurs_in word name \/
  exists lang title, In (lang, title) titles /\ occurs_in word title.

(** What a feature contributes to a set of connection types, by the value
    of its setting. *)
Definition contributes (allowed : list string) (prefix value : string) : Prop :=
  (value = "yes" ->
     In (prefix +:+ "_up") allowed /\ In (prefix +:+ "_down") allowed) /\
  (value = "up" ->
     In (prefix +:+ "_up") allowed /\ ~ In (prefix +:+ "_down") allowed) /\
  (value = "down" ->
     ~ In (prefix +:+ "_up") allowed /\ In (prefix +:+ "_down") allowed) /\
  (value = "no" ->
     ~ In (prefix +:+ "_up") allowed /\ ~ In (prefix +:+ "_down") allowed).

(** The literal [0.9901]: the float nearest to 9901/10000. *)
Definition float_0_9901 : float := S754_finite false 8918027982119056 (-53).

(** ** A geometry provider for the examples

    Axis-parallel rectangles with integer corners: the area is the exact
    integer area converted to a float, the intersection is the common
    rectangle (empty when the sides cross). *)
Module Rect.
Record t : Type := Build { x0 : Z; y0 : Z; x1 : Z; y1 : Z }.

Definition area (r : t) : float :=
  binary_normalize prec emax
    (Z.max 0 (x1 r - x0 r) * Z.max 0 (y1 r - y0 r)) 0 false.

Definition intersection (r s : t) : t :=
  Build (Z.max (x0 r) (x0 s)) (Z.max (y0 r) (y0 s))
        (Z.min (x1 r) (x1 s)) (Z.min (y1 r) (y1 s)).

#[global] Instance geometry : Geometry t :=
  {| geom_area := area; geom_intersection := intersection |}.
End Rect.

(** ** Example map data *)
Module Example.

Definition ground : Level.t := Level.Build "ground" false.

Definition mk_area (name title : string) (ty : LocationType.t)
           (g : Rect.t) : AreaLocation.t Rect.t :=
  AreaLocation.Build name [("en", title)] ty "ground" g [] true true "default".

Definition floor0 := mk_area "floor0" "Ground Floor" LocationType.level
                             (Rect.Build 0 0 100 100).
Definition building := mk_area "building" "Main Building" LocationType.area
                               (Rect.Build 0 0 100 50).
Definition room1 := mk_area "room1" "Room One" LocationType.room
                            (Rect.Build 10 10 20 20).
(** A strip of area 10000 and two areas that cover 9900 and 9901 of it. *)
Definition strip := mk_area "strip" "Corridor" LocationType.room
                            (Rect.Build 0 200 10000 201).
Definition cover9900 := mk_area "cover9900" "West Wing" LocationType.area
                                (Rect.Build 0 200 9900 201).
Definition cover9901 := mk_area "cover9901" "East Wing" LocationType.area
                                (Rect.Build 0 200 9901 201).
(** A point of interest without extent. *)
Definition dot := mk_area "dot" "Info Point" LocationType.poi
                          (Rect.Build 15 15 15 15).
(** An area whose name starts like a coordinate identifier. *)
Definition odd := mk_area "c:ground:a:b" "Odd Name" LocationType.poi
                          (Rect.Build 300 300 301 301).
Definition staff : LocationGroup.t :=
  LocationGroup.Build "staff" [("en", "Staff")] true "default".
(** A group whose title holds its own identifier, up to case. *)
Definition crew : LocationGroup.t :=
  LocationGroup.Build "crew" [("en", "Rig:Crew")] true "default".

Definition db : MapData Rect.t :=
  {| levels := {[ "ground" := ground ]};
     arealocations := [floor0; building; room1; strip; cover9900; cover9901;
                       dot; odd];
     locationgroups := [staff; crew] |}.

(** A request context that may see everything. *)
Definition everything {A : Type} (_ : unit) (_ : A) : bool := true.

Definition ex_get_location := get_location unit everything everything db tt.
Definition ex_search_location := search_location unit everything everything db tt.
Definition ex_get_in_areas := _get_in_areas db.

(** A coordinate identifier for the level [ground] whose first numeral is
    a one followed by four hundred zeros. *)
Definition huge_identifier : string := "c:ground:1" +:+ zeros 400 +:+ ":0".

End Example.

(** ** locations.py: the cached containment *)

(** The cache key of [get_in_areas], for the ISO format of the time stamp
    of the last update. The line of the source ends in a comma, which makes
    the key a tuple of this one string; the string stands for the tuple. *)
Definition in_areas_cache_key (last_update name : string) : string :=
  "c3nav__mapdata__location__in__areas__" +:+ last_update +:+ "__" +:+ name.

Section CachedContainment.
Context {G : Type} `{Geometry G}.
Variable db : MapData G.

(** [AreaLocation.get_in_areas]: [last_update] is what
    [get_last_mapdata_update()] returns, in ISO format; the cache is passed
    in and returned. An entry is a list that an earlier call has set. *)
Definition get_in_areas (last_update : option string) (self : AreaLocation.t G)
           (cache : gmap string (list (AreaLocation.t G)))
  : result (list (AreaLocation.t G)) * gmap string (list (AreaLocation.t G)) :=
  match last_update with
  | None => (_get_in_areas db self, cache)
  | Some last_update =>
      let cache_key := in_areas_cache_key last_update (AreaLocation.name self) in
      match cache !! cache_key with
      | Some (arealocation :: in_areas) => (Ok (arealocation :: in_areas), cache)
      | _ =>
          match _get_in_areas db self with
          | Ok in_areas => (Ok in_areas, <[cache_key := in_areas]> cache)
          | Raise e => (Raise e, cache)
          end
      end
  end.

(** A cache that holds, for the areas of the table, only what
    [_get_in_areas] returns for them. *)
Definition cache_coherent (last_update : string)
           (cache : gmap string (list (AreaLocation.t G))) : Prop :=
  forall a l, In a (arealocations db) ->
    cache !! in_areas_cache_key last_update (AreaLocation.name a) = Some l ->
    _get_in_areas db a = Ok l.

End CachedContainment.

(** ** views.py: the settings of [main] *)

Module ViewsMain.
Import Views.

(** A value of [request.COOKIES]: what [isinstance(cookie_value, dict)]
    tells apart. The values of a dictionary are taken to be strings. *)
Inductive cookie_value : Type :=
| CookieText (s : string)
| CookieDict (d : gmap string string).

(** The parts of the request that the settings read. *)
Record Request : Type := {
  method : string;
  POST : gmap string string;
  COOKIES : gmap string cookie_value
}.

(** Lines 123-147 of [main]: the three settings from the defaults, the
    cookie and the form, and [save_settings] after the cookie. *)
Definition passability (request : Request) : string * string * string * bool :=
  let stairs := "yes" in
  let escalators := "yes" in
  let elevators := "yes" in
  let save_settings := false in
  let '(stairs, escalators, elevators, save_settings) :=
    match COOKIES request !! "c3nav_settings" with
    | Some cookie_value =>
        let '(stairs, escalators, elevators) :=
          match cookie_value with
          | CookieDict d =>
              (default stairs (d !! "stairs"),
               default escalators (d !! "escalators"),
               default elevators (d !! "elevators"))
          | CookieText _ => (stairs, escalators, elevators)
          end in
        (stairs, escalators, elevators, true)
    | None => (stairs, escalators, elevators, save_settings)
    end in
  let '(stairs, escalators, elevators) :=
    if String.eqb (method request) "POST" then
      (post_get (POST request) "stairs" stairs,
       post_get (POST request) "escalators" escalators,
       post_get (POST request) "elevators" elevators)
    else (stairs, escalators, elevators) in
  (stairs, escalators, elevators, save_settings).

(** What [main] makes of the settings: the allowed connection types for
    the route, the three settings as the page shows and saves them, and
    the check box. The [include] and [avoid] lists go through
    [parse_include_avoid], which is not among the sources, and are left
    out. *)
Record Settings : Type := {
  allowed : list string;
  stairs : string;
  escalators : string;
  elevators : string;
  save_settings : bool
}.

(** Lines 152-159 and 164-165 of [main]. *)
Definition settings (request : Request) : Settings :=
  let '(stairs, escalators, elevators, save_settings) := passability request in
  let allowed_ctypes := allowed_ctypes (POST request) stairs escalators elevators in
  let stairs := reverse_ctypes allowed_ctypes "stairs" in
  let escalators := reverse_ctypes allowed_ctypes "escalator" in
  let elevators := reverse_ctypes allowed_ctypes "elevator" in
  let save_settings :=
    if String.eqb (method request) "POST"
    then String.eqb (post_get (POST request) "save_settings" "") "1"
    else save_settings in
  {| allowed := allowed_ctypes;
     stairs := stairs;
     escalators := escalators;
     elevators := elevators;
     save_settings := save_settings |}.

(** The value of a setting that counts: the form field if there is one,
    else the entry of a dictionary cookie, else [yes]. *)
Definition effective (request : Request) (key : string) : string :=
  match POST request !! key with
  | Some value => value
  | None =>
      match COOKIES request !! "c3nav_settings" with
      | Some (CookieDict d) => default "yes" (d !! key)
      | _ => "yes"
      end
  end.

(** A setting as the page shows it: one of the four values, [yes] for
    anything else. *)
Definition normalise (value : string) : string :=
  if str_in value ["yes"; "up"; "down"; "no"] then value else "yes".

End ViewsMain.

(** ** locations.py: reading and writing map package files *)

Module PackageFile.

(** The values of a package file. An object keeps its items in order, as
    the ordered dictionaries of [tofile] do; its keys are distinct. *)
#[warnings="-register-all"]
Inductive json : Type :=
| JNull
| JBool (b : bool)
| JNumber (n : Z)
| JFloat (x : float)
| JString (s : string)
| JList (l : list json)
| JObject (items : list (string * json)).

Definition dict : Type := list (string * json).

(** [d.get(key)] and [key in d] *)
Fixpoint dict_get (d : dict) (key : string) : option json :=
  match d with
  | [] => None
  | (k, v) :: d' => if String.eqb k key then Some v else dict_get d' key
  end.

(** [d[key] = value]: a key that is there keeps its place. *)
Fixpoint dict_set (d : dict) (key : string) (value : json) : dict :=
  match d with
  | [] => [(key, value)]
  | (k, v) :: d' =>
      if String.eqb k key then (k, value) :: d'
      else (k, v) :: dict_set d' key value
  end.

(** What [fromfile] and [tofile] raise. *)
Inductive file_error : Type :=
| FileValueError (message : string)
| FileTypeError (message : string)
| FileKeyError (key : string).

Inductive parsed (A : Type) : Type :=
| Parsed (a : A)
| Rejected (e : file_error).
Global Arguments Parsed {A} a.
Global Arguments Rejected {A} e.

#[global] Instance parsed_bind : MBind parsed := fun _ _ k r =>
  match r with
  | Parsed a => k a
  | Rejected e => Rejected e
  end.

(** [d.move_to_end(key)] *)
Definition dict_move_to_end (d : dict) (key : string) : parsed dict :=
  match dict_get d key with
  | None => Rejected (FileKeyError key)
  | Some value =>
      Parsed (List.filter (fun item => negb (String.eqb (fst item) key)) d
              ++ [(key, value)])
  end.

(** [LOCATION_ROUTING_INCLUSION] and [AreaLocation.LOCATION_TYPES], with
    the untranslated labels. *)
Definition LOCATION_ROUTING_INCLUSION : list (string * string) :=
  [("default", "Default, include if map package is unlocked");
   ("allow_avoid", "Included, but allow excluding");
   ("allow_include", "Avoided, but allow including");
   ("needs_permission", "Avoided, needs permission to include")].

Definition LOCATION_TYPES : list (string * string) :=
  [("level", "Level");
   ("area", "General Area");
   ("room", "Room");
   ("roomsegment", "Room Segment");
   ("poi", "Point of Interest")].

(** [value not in dict(choices)]: a list or an object cannot be hashed,
    which is a [TypeError]; of the rest only a string can be a key. *)
Definition not_in_choices (value : json) (choices : list (string * string))
  : parsed bool :=
  match value with
  | JList _ => Rejected (FileTypeError "unhashable type: 'list'")
  | JObject _ => Rejected (FileTypeError "unhashable type: 'dict'")
  | JString s => Parsed (negb (str_in s (map fst choices)))
  | _ => Parsed true
  end.

Definition is_string (v : json) : bool :=
  match v with
  | JString _ => true
  | _ => false
  end.

(** [not title] for a title that is a string. *)
Definition is_empty_string (v : json) : bool :=
  match v with
  | JString s => String.eqb s ""
  | _ => false
  end.

(** Titles that [fromfile] accepts: strings, none of them empty. *)
Definition valid_titles (items : list (string * json)) : Prop :=
  forall lang title, In (lang, title) items ->
                     exists s, title = JString s /\ s <> "".

Section FromFile.
(** [super().fromfile(data, file_path)]: the classes [MapItem] and
    [GeometryMapItemWithLevel], which are not among the sources. *)
Variable super_fromfile : dict -> parsed dict.

(** [LocationModelMixin.fromfile]. The keys of an object are strings, so
    the check of the languages cannot fail and is left out. *)
Definition mixin_fromfile (data : dict) : parsed dict :=
  kwargs ← super_fromfile data;
  match dict_get data "titles" with
  | None => Rejected (FileValueError "missing titles.")
  | Some titles =>
      match titles with
      | JObject items =>
          if existsb (fun item => negb (is_string (snd item))) items then
            Rejected (FileValueError "titles: All titles have to be strings.")
          else if existsb (fun item => is_empty_string (snd item)) items then
            Rejected (FileValueError "titles: Titles must not be empty strings.")
          else
            let kwargs := dict_set kwargs "titles" titles in
            match dict_get data "can_search" with
            | None => Rejected (FileValueError "Missing can_search")
            | Some can_search =>
                match can_search with
                | JBool _ =>
                    let kwargs := dict_set kwargs "can_search" can_search in
                    match dict_get data "routing_inclusion" with
                    | None => Rejected (FileValueError "Missing routing inclusion")
                    | Some routing_inclusion =>
                        invalid ← not_in_choices routing_inclusion
                                    LOCATION_ROUTING_INCLUSION;
                        if (invalid : bool) then
                          Rejected (FileValueError "Invalid routing inclusion")
                        else
                          Parsed (dict_set kwargs "routing_inclusion"
                                           routing_inclusion)
                    end
                | _ => Rejected (FileValueError "can_search has to be boolean!")
                end
            end
      | _ => Rejected (FileValueError "Invalid titles format.")
      end
  end.

(** [AreaLocation.fromfile] *)
Definition area_fromfile (data : dict) : parsed dict :=
  kwargs ← mixin_fromfile data;
  let groups := default (JList []) (dict_get data "groups") in
  match groups with
  | JList _ =>
      let kwargs := dict_set kwargs "groups" groups in
      match dict_get data "location_type" with
      | None => Rejected (FileValueError "Missing location type")
      | Some location_type =>
          invalid ← not_in_choices location_type LOCATION_TYPES;
          if (invalid : bool) then
            Rejected (FileValueError "Invalid location type")
          else
            let kwargs := dict_set kwargs "location_type" location_type in
            match dict_get data "can_search" with
            | None => Rejected (FileValueError "Missing can_search")
            | Some can_search =>
                match can_search with
                | JBool _ =>
                    let kwargs := dict_set kwargs "can_search" can_search in
                    match dict_get data "can_describe" with
                    | None => Rejected (FileValueError "Missing can_describe")
                    | Some can_describe =>
                        match can_describe with
                        | JBool _ =>
                            Parsed (dict_set kwargs "can_describe" can_describe)
                        | _ =>
                            Rejected (FileValueError
                                        "can_describe has to be boolean!")
                        end
                    end
                | _ => Rejected (FileValueError "can_search has to be boolean!")
                end
            end
      end
  | _ => Rejected (FileTypeError "groups has to be a list")
  end.
End FromFile.

(** [sorted(l)] for strings and for pairs of strings: by code points, a
    pair by its first component, then by its second. *)
Definition pair_leb (p q : string * string) : bool :=
  match String.compare (fst p) (fst q) with
  | Lt => true
  | Gt => false
  | Eq => String.leb (snd p) (snd q)
  end.

Fixpoint insert_sorted {A : Type} (leb : A -> A -> bool) (a : A) (l : list A) : list A :=
  match l with
  | [] => [a]
  | b :: l' => if leb a b then a :: b :: l' else b :: insert_sorted leb a l'
  end.

Definition sorted {A : Type} (leb : A -> A -> bool) (l : list A) : list A :=
  foldr (insert_sorted leb) [] l.

(** The name of a location type, as the field holds it. *)
Definition location_type_name (t : LocationType.t) : string :=
  match t with
  | LocationType.level => "level"
  | LocationType.area => "area"
  | LocationType.room => "room"
  | LocationType.roomsegment => "roomsegment"
  | LocationType.poi => "poi"
  end.

(** [OrderedDict(sorted(self.titles.items()))] *)
Definition titles_object (titles : Titles) : json :=
  JObject (map (fun item => (fst item, JString (snd item))) (sorted pair_leb titles)).

(** [LocationModelMixin.tofile], on the result of [super().tofile()]. *)
Definition mixin_tofile (super_tofile : dict) (titles : Titles)
           (can_search : bool) (routing_inclusion : string) : dict :=
  let result := super_tofile in
  let result := dict_set result "titles" (titles_object titles) in
  let result := dict_set result "can_search" (JBool can_search) in
  let result := dict_set result "routing_inclusion" (JString routing_inclusion) in
  result.

(** [AreaLocation.tofile] *)
Definition area_tofile {G : Type} (super_tofile : dict) (self : AreaLocation.t G)
  : parsed dict :=
  let result := mixin_tofile super_tofile (AreaLocation.titles self)
                  (AreaLocation.can_search self)
                  (AreaLocation.routing_inclusion self) in
  let result := dict_set result "groups"
                  (JList (map JString (sorted String.leb (AreaLocation.groups self)))) in
  let result := dict_set result "location_type"
                  (JString (location_type_name (AreaLocation.location_type self))) in
  let result := dict_set result "can_search" (JBool (AreaLocation.can_search self)) in
  let result := dict_set result "can_describe" (JBool (AreaLocation.can_describe self)) in
  dict_move_to_end result "geometry".

End PackageFile.

(** ** locations.py: the area that describes a point *)

(** The list [locations] of [PointLocation.description] (lines 306-307),
    for the names [point_arealocations] that the nearest point of the graph
    carries; the description names its first element, if there is one. *)
Definition description_locations {G : Type} (db : MapData G)
           (point_arealocations : list string) : list (AreaLocation.t G) :=
  sorted_desc AreaLocation.get_sort_key
    (List.filter (fun a => str_in (AreaLocation.name a) point_arealocations
                           && AreaLocation.can_describe a)
                 (arealocations db)).

(** The elements of [l] by key, for the keys [ks] in turn. *)
Definition by_keys {A : Type} (key : A -> nat) (ks : list nat) (l : list A) : list A :=
  flat_map (fun k => List.filter (fun x => (key x =? k)%nat) l) ks.

(** ** views.py: the locations of [main] *)

Module ViewsHead.

(** What ends the view early: [Http404], or an exception of
    [get_location] that nothing catches. *)
Inductive view_error : Type :=
| Http404
| Uncaught (e : exn).

Inductive outcome (A : Type) : Type :=
| Returned (a : A)
| Raised (e : view_error).
Global Arguments Returned {A} a.
Global Arguments Raised {A} e.

#[global] Instance outcome_bind : MBind outcome := fun _ _ k r =>
  match r with
  | Returned a => k a
  | Raised e => Raised e
  end.

(** The first entries of the template context. *)
Record PageContext (G : Type) : Type := {
  location : option (Location G);
  origin : option (Location G);
  destination : option (Location G);
  mode : string;
  active_field : option string
}.
Global Arguments location {G}.
Global Arguments origin {G}.
Global Arguments destination {G}.
Global Arguments mode {G}.
Global Arguments active_field {G}.

Section Head.
Context {G : Type} `{Geometry G}.
Variable Request : Type.
Variable area_visible : Request -> AreaLocation.t G -> bool.
Variable group_visible : Request -> LocationGroup.t -> bool.
Variable db : MapData G.

(** [get_location_or_404(request, location)] *)
Definition get_location_or_404 (request : Request) (location : option string)
  : outcome (option (Location G)) :=
  match location with
  | None => Returned None
  | Some location =>
      match get_location Request area_visible group_visible db request location with
      | Raise e => Raised (Uncaught e)
      | Ok None => Raised Http404
      | Ok (Some location) => Returned (Some location)
      end
  end.

(** Lines 48-68 of [main]. A location object is true, [None] is not. *)
Definition main_head (request : Request) (location origin destination : option string)
  : outcome (PageContext G) :=
  location ← get_location_or_404 request location;
  origin ← get_location_or_404 request origin;
  destination ← get_location_or_404 request destination;
  let mode :=
    if negb (bool_decide (is_Some origin)) && negb (bool_decide (is_Some destination))
    then "location" else "route" in
  let active_field :=
    if negb (bool_decide (is_Some origin)) && negb (bool_decide (is_Some destination))
    then Some "location"
    else if bool_decide (is_Some origin) && negb (bool_decide (is_Some destination))
    then Some "destination"
    else if bool_decide (is_Some destination) && negb (bool_decide (is_Some origin))
    then Some "origin"
    else None in
  Returned {| location := location; origin := origin; destination := destination;
              mode := mode; active_field := active_field |}.

(** An identifier that is given resolves to [got]; none is given and
    [got] is [None]. *)
Definition resolved (request : Request) (given : option string)
           (got : option (Location G)) : Prop :=
  match given with
  | None => got = None
  | Some name =>
      exists loc, get_location Request area_visible group_visible db request name
                  = Ok (Some loc) /\ got = Some loc
  end.

End Head.
End ViewsHead.

(** ** More example data *)
Module MoreExamples.
Import PackageFile ViewsMain.

(** An area that bears the identifier of the group [staff] as its name. *)
Definition shadowed : AreaLocation.t Rect.t :=
  Example.mk_area "g:staff" "Staff Room" LocationType.room (Rect.Build 40 40 50 50).

(** The example table with this area in it. *)
Definition shadowing_db : MapData Rect.t :=
  {| levels := levels Example.db;
     arealocations := shadowed :: arealocations Example.db;
     locationgroups := locationgroups Example.db |}.

(** A time stamp of the last update, and the cache as a call for [room1]
    at that time leaves it. *)
Definition stamp : string := "2016-12-27T10:00:00".

Definition warm : gmap string (list (AreaLocation.t Rect.t)) :=
  <[in_areas_cache_key stamp "room1" := [Example.building; Example.floor0]]> ∅.

(** The classes above the locations accept every record and add nothing;
    they write the name and the geometry. *)
Definition accept_all (data : dict) : parsed dict := Parsed [].

Definition room1_base : dict :=
  [("name", JString "room1"); ("geometry", JString "POLYGON")].

(** A record with valid titles and no [can_search]. *)
Definition titles_only : dict :=
  [("titles", JObject [("en", JString "Room One")])].

(** A record whose [routing_inclusion] is a list. *)
Definition listed_inclusion : dict :=
  [("titles", JObject [("en", JString "Room One")]);
   ("can_search", JBool true);
   ("routing_inclusion", JList [JString "default"])].

(** A group record as a package file holds it. *)
Definition staff_record : dict :=
  [("titles", JObject [("en", JString "Staff")]);
   ("can_search", JBool true);
   ("routing_inclusion", JString "default")].

(** A POST request that saves the settings, and the GET request that
    brings the saved settings back. *)
Definition saving : Request :=
  {| method := "POST";
     POST := <["stairs" := "no"]> (<["escalators" := "maybe"]>
             (<["save_settings" := "1"]> ∅));
     COOKIES := ∅ |}.

Definition returning : Request :=
  {| method := "GET";
     POST := ∅;
     COOKIES := {[ "c3nav_settings" :=
                   CookieDict (<["stairs" := "no"]> (<["escalators" := "yes"]>
                              (<["elevators" := "yes"]> ∅))) ]} |}.

End MoreExamples.

(** * Properties *)

(** ** Route-constraint translation *)

Section ViewsFacts.
Import Views.

Lemma append_up_down_neq (name : string) : name +:+ "_up" <> name +:+ "_down".
Proof.
  induction name as [|c name IH]; simpl; intros E.
  - discriminate E.
  - injection E as E. contradiction.
Qed.

Lemma eqb_up_down (name : string) :
  String.eqb (name +:+ "_up") (name +:+ "_down") = false.
Proof. apply String.eqb_neq, append_up_down_neq. Qed.

Lemma eqb_down_up (name : string) :
  String.eqb (name +:+ "_down") (name +:+ "_up") = false.
Proof. apply String.eqb_neq. intros E. symmetry in E. revert E. apply append_up_down_neq. Qed.

Lemma str_in_In (x : string) (t : list string) : str_in x t = true <-> In x t.
Proof.
  unfold str_in. rewrite existsb_exists. split.
  - intros (y & Hy & E). apply String.eqb_eq in E. now subst.
  - intros Hx. exists x. split; [assumption | apply String.eqb_refl].
Qed.

Lemma get_ctypes_yes prefix :
  get_ctypes prefix "yes" = [prefix +:+ "_up"; prefix +:+ "_down"].
Proof. reflexivity. Qed.
Lemma get_ctypes_up prefix : get_ctypes prefix "up" = [prefix +:+ "_up"].
Proof. reflexivity. Qed.
Lemma get_ctypes_down prefix : get_ctypes prefix "down" = [prefix +:+ "_down"].
Proof. reflexivity. Qed.
Lemma get_ctypes_no prefix : get_ctypes prefix "no" = [].
Proof. reflexivity. Qed.

Lemma ctype_mapping_cases value :
  let dirs := default ["up"; "down"] (ctype_mapping !! value) in
  dirs = ["up"; "down"] \/ dirs = ["up"] \/ dirs = ["down"] \/ dirs = [].
Proof.
  unfold ctype_mapping.
  repeat (rewrite lookup_insert; case_decide); rewrite ?lookup_empty;
    simpl; auto.
Qed.

(** Whatever the value, the tags are among the two of the prefix. *)
Lemma get_ctypes_among prefix value tag :
  In tag (get_ctypes prefix value) ->
  tag = prefix +:+ "_up" \/ tag = prefix +:+ "_down".
Proof.
  unfold get_ctypes.
  destruct (ctype_mapping_cases value) as [E|[E|[E|E]]]; rewrite E;
    intros Hin; repeat (destruct Hin as [Hin|Hin]; [subst tag|]);
    try contradiction; (left; reflexivity) || (right; reflexivity).
Qed.

Lemma In_allowed_ctypes post stairs escalators elevators tag :
  In tag (allowed_ctypes post stairs escalators elevators) <->
  tag = "" \/
  In tag (get_ctypes "stairs" (post_get post "stairs" stairs)) \/
  In tag (get_ctypes "escalator" (post_get post "escalators" escalators)) \/
  In tag (get_ctypes "elevator" (post_get post "elevators" elevators)).
Proof.
  unfold allowed_ctypes. rewrite !in_app_iff. simpl. intuition.
Qed.

(** A tag of one feature is not a tag of another, and it is not the
    empty tag. *)
Ltac foreign_tag H :=
  apply get_ctypes_among in H; destruct H as [H|H]; discriminate H.

Ltac tag_present :=
  apply In_allowed_ctypes;
  match goal with
  | E : post_get _ _ _ = _ |- _ => rewrite !E
  end;
  rewrite ?get_ctypes_yes, ?get_ctypes_up, ?get_ctypes_down, ?get_ctypes_no;
  simpl; auto 10.

Ltac tag_absent :=
  let Hin := fresh "Hin" in
  intros Hin; apply In_allowed_ctypes in Hin;
  match goal with
  | E : post_get _ _ _ = _ |- _ => rewrite !E in Hin
  end;
  destruct Hin as [Hin|[Hin|[Hin|Hin]]];
  [ discriminate Hin
  | first [ foreign_tag Hin
          | rewrite ?get_ctypes_yes, ?get_ctypes_up, ?get_ctypes_down,
              ?get_ctypes_no in Hin;
            simpl in Hin; intuition discriminate ] .. ].

(** C8. The allowed connection types built for the route query: with the
    stairs setting [no] they hold neither [stairs_up] nor [stairs_down];
    the empty tag is always a member; and each of the three features
    contributes both its tags for [yes], only [_up] for [up], only
    [_down] for [down] and none for [no], whatever the other two
    settings are. *)
Theorem allowed_ctypes_translation
        (post : gmap string string) (stairs escalators elevators : string) :
  let allowed := allowed_ctypes post stairs escalators elevators in
  In "" allowed /\
  (post_get post "stairs" stairs = "no" ->
     ~ In "stairs_up" allowed /\ ~ In "stairs_down" allowed) /\
  contributes allowed "stairs" (post_get post "stairs" stairs) /\
  contributes allowed "escalator" (post_get post "escalators" escalators) /\
  contributes allowed "elevator" (post_get post "elevators" elevators).
Proof.
  intros allowed. subst allowed.
  split; [left; reflexivity|].
  split; [intros E; split; tag_absent|].
  unfold contributes.
  repeat split; first [tag_present | tag_absent].
Qed.

Lemma allowed_ctypes_translation_witness :
  let allowed := allowed_ctypes {[ "stairs" := "no" ]} "yes" "up" "down" in
  In "" allowed /\ ~ In "stairs_up" allowed /\ ~ In "stairs_down" allowed.
Proof.
  intros allowed.
  destruct (allowed_ctypes_translation {[ "stairs" := "no" ]} "yes" "up" "down")
    as (Hempty & Hno & _).
  split; [exact Hempty | apply Hno; reflexivity].
Defined.

(** C9. Reading the tags of a feature back gives the setting they were
    made from: [reverse_ctypes(get_ctypes(name, v), name) == v] for each
    of the four settings. *)
Theorem reverse_ctypes_get_ctypes (name value : string) :
  In value ["yes"; "up"; "down"; "no"] ->
  reverse_ctypes (get_ctypes name value) name = value.
Proof.
  intros Hv. simpl in Hv.
  destruct Hv as [E|[E|[E|[E|[]]]]]; subst value;
    rewrite ?get_ctypes_yes, ?get_ctypes_up, ?get_ctypes_down, ?get_ctypes_no;
    unfold reverse_ctypes, str_in; simpl;
    rewrite ?String.eqb_refl, ?eqb_up_down, ?eqb_down_up; reflexivity.
Qed.

Lemma reverse_ctypes_get_ctypes_witness :
  reverse_ctypes (get_ctypes "escalator" "down") "escalator" = "down".
Proof.
  apply (reverse_ctypes_get_ctypes "escalator" "down").
  simpl. right. right. left. reflexivity.
Defined.
End ViewsFacts.

(** ** Loops *)

Section Loops.
Context {A : Type}.

Lemma append_if_Ok (test : A -> result bool) c acc b :
  test c = Ok b -> append_if test c acc = Ok (if b then acc ++ [c] else acc).
Proof. unfold append_if. now intros ->. Qed.

Lemma append_if_Raise (test : A -> result bool) c (acc : list A) e :
  test c = Raise e -> append_if test c acc = Raise e.
Proof. unfold append_if. now intros ->. Qed.

Lemma passes_Ok (test : A -> result bool) c b : test c = Ok b -> passes test c = b.
Proof. unfold passes. intros ->. now destruct b. Qed.

Lemma for_each_append_if_Ok (test : A -> result bool) cands acc r :
  for_each cands (append_if test) acc = Ok r ->
  r = acc ++ List.filter (passes test) cands /\
  forall c, In c cands -> exists b, test c = Ok b.
Proof.
  revert acc. induction cands as [|c cands IH]; simpl; intros acc Hr.
  - injection Hr as <-. rewrite app_nil_r. split; [reflexivity | tauto].
  - destruct (test c) as [b|e] eqn:Et.
    2: { rewrite (append_if_Raise _ _ _ _ Et) in Hr. discriminate Hr. }
    rewrite (append_if_Ok _ _ _ _ Et) in Hr. cbn in Hr.
    rewrite (passes_Ok _ _ _ Et).
    apply IH in Hr as [-> Htot]. split.
    + destruct b; [rewrite <- app_assoc|]; reflexivity.
    + intros c' [<-|Hin]; eauto.
Qed.

Lemma for_each_append_if_total (test : A -> result bool) cands acc :
  (forall c, In c cands -> exists b, test c = Ok b) ->
  for_each cands (append_if test) acc
  = Ok (acc ++ List.filter (passes test) cands).
Proof.
  revert acc. induction cands as [|c cands IH]; simpl; intros acc Htot.
  - now rewrite app_nil_r.
  - destruct (Htot c (or_introl eq_refl)) as [b Et].
    rewrite (append_if_Ok _ _ _ _ Et), (passes_Ok _ _ _ Et). cbn.
    rewrite IH by auto.
    destruct b; [rewrite <- app_assoc|]; reflexivity.
Qed.

(** The nested loop: one inner loop per element of [keys]. *)
Lemma for_each_nested_Ok {K : Type} (cands : K -> list A)
      (test : A -> result bool) keys acc r :
  for_each keys (fun k acc => for_each (cands k) (append_if test) acc) acc = Ok r ->
  r = acc ++ flat_map (fun k => List.filter (passes test) (cands k)) keys /\
  forall k c, In k keys -> In c (cands k) -> exists b, test c = Ok b.
Proof.
  revert acc. induction keys as [|k keys IH]; simpl; intros acc Hr.
  - injection Hr as <-. rewrite app_nil_r. split; [reflexivity | tauto].
  - destruct (for_each (cands k) (append_if test) acc) as [acc'|e] eqn:Ei;
      cbn in Hr; [|discriminate Hr].
    apply for_each_append_if_Ok in Ei as [-> Htot1].
    apply IH in Hr as [-> Htot2]. split.
    + now rewrite <- app_assoc.
    + intros k' c [<-|Hin] Hc; eauto.
Qed.

Lemma for_each_nested_total {K : Type} (cands : K -> list A)
      (test : A -> result bool) keys acc :
  (forall k c, In k keys -> In c (cands k) -> exists b, test c = Ok b) ->
  for_each keys (fun k acc => for_each (cands k) (append_if test) acc) acc
  = Ok (acc ++ flat_map (fun k => List.filter (passes test) (cands k)) keys).
Proof.
  revert acc. induction keys as [|k keys IH]; simpl; intros acc Htot.
  - now rewrite app_nil_r.
  - rewrite for_each_append_if_total by eauto. cbn.
    rewrite IH by eauto. now rewrite <- app_assoc.
Qed.

Lemma filter_none (f : A -> bool) (l : list A) :
  (forall x, In x l -> f x = false) -> List.filter f l = [].
Proof.
  induction l as [|x l IH]; simpl; intros Hf; [reflexivity|].
  rewrite (Hf x) by now left. apply IH. intros y Hy. apply Hf. now right.
Qed.

Lemma flat_map_none {K : Type} (f : K -> list A) (keys : list K) :
  (forall k, f k = []) -> flat_map f keys = [].
Proof.
  intros Hf. induction keys as [|k keys IH]; simpl; [reflexivity|].
  now rewrite Hf, IH.
Qed.
End Loops.

(** ** Floats *)

(** The two literals are the floats nearest to the decimals they spell:
    they are the correctly rounded quotients. *)
Lemma float_0_99_nearest : int_truediv 99 100 = Ok float_0_99.
Proof. reflexivity. Qed.

Lemma float_0_9901_nearest : int_truediv 9901 10000 = Ok float_0_9901.
Proof. reflexivity. Qed.

Lemma float_gt_0_99_irrefl : float_gt float_0_99 float_0_99 = false.
Proof. reflexivity. Qed.

Lemma float_gt_0_9901_0_99 : float_gt float_0_9901 float_0_99 = true.
Proof. reflexivity. Qed.

(** A zero divided by anything is not above [0.99]. *)
Lemma zero_ratio_not_above (x y : float) :
  is_zero x = true -> float_gt (SFdiv prec emax x y) float_0_99 = false.
Proof. destruct x; try discriminate. intros _. now destruct y. Qed.

(** Between zero and a zero there are only the zeros. *)
Lemma float_between_zeros (x z : float) :
  is_zero z = true ->
  float_le (S754_zero false) x = true -> float_le x z = true ->
  is_zero x = true.
Proof.
  destruct z; try discriminate. intros _.
  destruct x as [| [] | | [] m e]; simpl; try reflexivity; discriminate.
Qed.

(** The test of line 167 is [True] exactly when the ratio is defined and
    above [0.99]. *)
Lemma contains_enough_true (intersection_area my_area : float) :
  contains_enough intersection_area my_area = Ok true <->
  exists ratio, float_truediv intersection_area my_area = Ok ratio /\
                float_gt ratio float_0_99 = true.
Proof.
  unfold contains_enough, float_truediv, truthy. split.
  - destruct (is_zero intersection_area); simpl; [discriminate|].
    destruct (is_zero my_area); cbn; [discriminate|].
    intros [= E]. eauto.
  - intros (ratio & Hdiv & Hgt).
    destruct (is_zero my_area); [discriminate|]. injection Hdiv as <-.
    destruct (is_zero intersection_area) eqn:Ez; simpl.
    + rewrite zero_ratio_not_above in Hgt by assumption. discriminate.
    + cbn. now rewrite Hgt.
Qed.

(** With a divisor that is not zero, the test returns. *)
Lemma contains_enough_total (intersection_area my_area : float) :
  is_zero my_area = false ->
  exists b, contains_enough intersection_area my_area = Ok b.
Proof.
  intros Hz. unfold contains_enough, float_truediv. rewrite Hz.
  destruct (truthy intersection_area); cbn; eauto.
Qed.

(** With a zero numerator, the test is [False] and does not divide. *)
Lemma contains_enough_zero (intersection_area my_area : float) :
  is_zero intersection_area = true ->
  contains_enough intersection_area my_area = Ok false.
Proof. unfold contains_enough, truthy. now intros ->. Qed.

(** ** Granularity ordinals *)

Lemma get_sort_key_ordinal {G} (a : AreaLocation.t G) :
  AreaLocation.get_sort_key a = ordinal (AreaLocation.location_type a).
Proof. reflexivity. Qed.

(** [index] finds every location type. *)
Lemma get_sort_key_index (t : LocationType.t) :
  AreaLocation.index t LOCATION_TYPES_ORDER = Some (ordinal t).
Proof. now destruct t. Qed.

Lemma ordinal_inj (t u : LocationType.t) : ordinal t = ordinal u -> t = u.
Proof. destruct t, u; simpl; intros E; congruence || discriminate E. Qed.

(** The types scanned for a location of ordinal [i]: those of a smaller
    ordinal, the nearest one first. *)
Lemma scanned_types_In (i : nat) (t : LocationType.t) :
  In t (rev (take i LOCATION_TYPES_ORDER)) <-> (ordinal t < i)%nat.
Proof.
  rewrite <- in_rev.
  destruct i as [|[|[|[|[|i]]]]]; destruct t;
    match goal with
    | |- context [ordinal ?u] =>
        let n := eval vm_compute in (ordinal u) in change (ordinal u) with n
    end;
    simpl; split; intros Hi; try lia; intuition congruence.
Qed.

Lemma scanned_types_sorted (i : nat) :
  StronglySorted (fun t u => (ordinal u < ordinal t)%nat)
                 (rev (take i LOCATION_TYPES_ORDER)).
Proof.
  destruct i as [|[|[|[|[|i]]]]]; simpl; rewrite ?take_nil; simpl;
    repeat (apply SSorted_cons;
            [|repeat (apply List.Forall_cons; [vm_compute; lia|]);
              apply List.Forall_nil]);
    apply SSorted_nil.
Qed.

(** ** Area containment *)

Section AreaFacts.
Context {G : Type} `{Geometry G}.
Variable db : MapData G.

Abbreviation area := (AreaLocation.t G).

Lemma get_in_areas_loops (self : area) :
  _get_in_areas db self
  = for_each (rev (take (AreaLocation.get_sort_key self) LOCATION_TYPES_ORDER))
      (fun t acc =>
         for_each (areas_of_type_on_level db t (AreaLocation.level self))
                  (append_if (overlap_test self)) acc)
      [].
Proof. reflexivity. Qed.

Lemma In_areas_of_type_on_level (c : area) t lvl :
  In c (areas_of_type_on_level db t lvl) <->
  In c (arealocations db) /\ AreaLocation.location_type c = t /\
  AreaLocation.level c = lvl.
Proof.
  unfold areas_of_type_on_level. rewrite filter_In, andb_true_iff.
  rewrite bool_decide_eq_true, String.eqb_eq. tauto.
Qed.

(** The result, when there is one. *)
Lemma get_in_areas_Ok (self : area) (l : list area) :
  _get_in_areas db self = Ok l ->
  l = flat_map (enclosing_of_type db self)
        (rev (take (AreaLocation.get_sort_key self) LOCATION_TYPES_ORDER)).
Proof.
  rewrite get_in_areas_loops. intros Hl.
  apply for_each_nested_Ok in Hl as [-> _]. reflexivity.
Qed.

(** The result when the test returns for every area. *)
Lemma get_in_areas_total (self : area) :
  (forall c, In c (arealocations db) -> exists b, overlap_test self c = Ok b) ->
  _get_in_areas db self
  = Ok (flat_map (enclosing_of_type db self)
          (rev (take (AreaLocation.get_sort_key self) LOCATION_TYPES_ORDER))).
Proof.
  intros Htot. rewrite get_in_areas_loops.
  rewrite for_each_nested_total; [reflexivity|].
  intros t c _ Hc. apply Htot. now apply In_areas_of_type_on_level in Hc.
Qed.

Lemma In_enclosing (self c : area) :
  In c (flat_map (enclosing_of_type db self)
          (rev (take (AreaLocation.get_sort_key self) LOCATION_TYPES_ORDER))) <->
  In c (arealocations db) /\
  AreaLocation.level c = AreaLocation.level self /\
  (AreaLocation.get_sort_key c < AreaLocation.get_sort_key self)%nat /\
  overlap_test self c = Ok true.
Proof.
  rewrite in_flat_map. unfold enclosing_of_type. split.
  - intros (t & Ht & Hc). apply filter_In in Hc as [Hc Hp].
    apply In_areas_of_type_on_level in Hc as (Hin & <- & Hlvl).
    apply scanned_types_In in Ht.
    repeat split; try assumption.
    unfold passes in Hp.
    destruct (overlap_test self c) as [[]|]; congruence.
  - intros (Hin & Hlvl & Hkey & Ht).
    exists (AreaLocation.location_type c). split.
    + now apply scanned_types_In.
    + apply filter_In. split.
      * now apply In_areas_of_type_on_level.
      * unfold passes. now rewrite Ht.
Qed.

(** The keys of the result never increase. *)
Lemma enclosing_sorted (self : area) (types : list LocationType.t) :
  StronglySorted (fun t u => (ordinal u < ordinal t)%nat) types ->
  StronglySorted
    (fun a b => (AreaLocation.get_sort_key b <= AreaLocation.get_sort_key a)%nat)
    (flat_map (enclosing_of_type db self) types).
Proof.
  induction 1 as [|t types Hs IH Ht]; simpl; [constructor|].
  assert (Hty : forall c, In c (enclosing_of_type db self t) ->
                          AreaLocation.location_type c = t).
  { intros c Hc. apply filter_In in Hc as [Hc _].
    now apply In_areas_of_type_on_level in Hc. }
  induction (enclosing_of_type db self t) as [|c l IHl]; simpl; [exact IH|].
  constructor; [apply IHl; intros; apply Hty; now right|].
  apply List.Forall_forall. intros b Hb.
  rewrite !get_sort_key_ordinal, (Hty c) by now left.
  apply in_app_or in Hb as [Hb|Hb].
  - rewrite (Hty b) by now right. lia.
  - apply in_flat_map in Hb as (u & Hu & Hb).
    apply filter_In in Hb as [Hb _].
    apply In_areas_of_type_on_level in Hb as (_ & -> & _).
    rewrite List.Forall_forall in Ht. specialize (Ht _ Hu). lia.
Qed.

Lemma sorted_lookup {A : Type} (R : A -> A -> Prop) (l : list A) :
  StronglySorted R l ->
  forall (i j : nat) a b, l !! i = Some a -> l !! j = Some b -> (i < j)%nat -> R a b.
Proof.
  induction 1 as [|x l Hs IH Hx]; intros i j a b Hi Hj Hij.
  - discriminate Hi.
  - destruct j as [|j]; [lia|]. simpl in Hj.
    destruct i as [|i]; simpl in Hi.
    + injection Hi as <-. rewrite List.Forall_forall in Hx. apply Hx.
      apply list_elem_of_In. eapply list_elem_of_lookup_2. exact Hj.
    + apply (IH i j); [assumption..|lia].
Qed.

(** C3 (as amended). The result of [_get_in_areas] is ordered from the
    finest enclosing type to the coarsest: an enclosing area of a finer
    location type (larger ordinal) comes before every enclosing area of a
    coarser one. *)
Theorem get_in_areas_finest_first (self : area) (l : list area) :
  _get_in_areas db self = Ok l -> finest_first l.
Proof.
  intros Hl. apply get_in_areas_Ok in Hl. subst l.
  intros a b _ _ Hkey i j Hi Hj.
  destruct (Nat.lt_ge_cases i j) as [Hlt|Hge]; [exact Hlt|exfalso].
  destruct (Nat.eq_dec i j) as [->|Hne].
  - rewrite Hi in Hj. injection Hj as ->. lia.
  - pose proof (sorted_lookup _ _
      (enclosing_sorted self _ (scanned_types_sorted _)) j i b a Hj Hi) as Hs.
    simpl in Hs. lia.
Qed.

(** C4. The threshold of [_get_in_areas] is strict. With an area that is
    not zero the function returns; and whenever it returns, an area is in
    the result exactly when it is a candidate (an area of the table, on
    the same level, of a coarser type) whose ratio
    [intersection_area / my_area] is above [0.99]: a candidate of ratio
    [0.99] is left out, one of ratio [0.9901] is in. *)
Theorem get_in_areas_threshold (self : area) :
  let candidate c :=
    In c (arealocations db) /\
    AreaLocation.level c = AreaLocation.level self /\
    (AreaLocation.get_sort_key c < AreaLocation.get_sort_key self)%nat in
  let ratio c :=
    float_truediv (overlap_area self c)
                  (geom_area (AreaLocation.geometry self)) in
  (is_zero (geom_area (AreaLocation.geometry self)) = false ->
   exists l, _get_in_areas db self = Ok l) /\
  (forall l, _get_in_areas db self = Ok l ->
     (forall c, In c l <->
        candidate c /\ exists r, ratio c = Ok r /\ float_gt r float_0_99 = true) /\
     (forall c, candidate c -> ratio c = Ok float_0_99 -> ~ In c l) /\
     (forall c, candidate c -> ratio c = Ok float_0_9901 -> In c l)).
Proof.
  intros candidate ratio. split.
  - intros Hz. eexists. apply get_in_areas_total.
    intros c _. now apply contains_enough_total.
  - intros l Hl. apply get_in_areas_Ok in Hl. subst l.
    assert (Hiff : forall c,
      In c (flat_map (enclosing_of_type db self)
              (rev (take (AreaLocation.get_sort_key self) LOCATION_TYPES_ORDER))) <->
      candidate c /\
      exists r, ratio c = Ok r /\ float_gt r float_0_99 = true).
    { intros c. rewrite In_enclosing. unfold overlap_test, candidate, ratio.
      rewrite contains_enough_true. tauto. }
    split; [exact Hiff|]. split.
    + intros c Hc Hr Hin. apply Hiff in Hin as (_ & r & Hr' & Hgt).
      rewrite Hr in Hr'. injection Hr' as <-.
      rewrite float_gt_0_99_irrefl in Hgt. discriminate.
    + intros c Hc Hr. apply Hiff. split; [exact Hc|].
      exists float_0_9901. split; [exact Hr | reflexivity].
Qed.

(** C5. For an area location whose geometry has area zero,
    [_get_in_areas] returns the empty sequence and divides nowhere: the
    intersection areas, which lie between zero and the area of the
    location, are all zero, so the test stops at its first operand. *)
Theorem get_in_areas_zero_area (self : area) :
  is_zero (geom_area (AreaLocation.geometry self)) = true ->
  (forall c, In c (arealocations db) ->
     float_le (S754_zero false) (overlap_area self c) = true /\
     float_le (overlap_area self c) (geom_area (AreaLocation.geometry self)) = true) ->
  _get_in_areas db self = Ok [] /\
  forall c, In c (arealocations db) -> truthy (overlap_area self c) = false.
Proof.
  intros Hz Hgeom.
  assert (Hzero : forall c, In c (arealocations db) ->
                            is_zero (overlap_area self c) = true).
  { intros c Hc. destruct (Hgeom c Hc) as [Hlo Hhi].
    eapply float_between_zeros; eassumption. }
  split.
  - rewrite get_in_areas_total.
    + f_equal. apply flat_map_none. intros t. unfold enclosing_of_type.
      apply filter_none. intros c Hc.
      apply In_areas_of_type_on_level in Hc as (Hc & _).
      unfold passes, overlap_test.
      now rewrite contains_enough_zero by auto.
    + intros c Hc. exists false. apply contains_enough_zero. auto.
  - intros c Hc. unfold truthy. now rewrite Hzero.
Qed.
End AreaFacts.

(** ** Strings *)

Lemma prefix_append (p s : string) :
  String.prefix p s = true <-> exists rest, s = p +:+ rest.
Proof.
  revert s. induction p as [|c p IH]; intros s.
  - split; [intros _; now exists s | intros _; now destruct s].
  - destruct s as [|d s]; simpl.
    + split; [discriminate | intros [rest E]; discriminate E].
    + destruct (ascii_dec c d) as [->|Hne].
      * rewrite IH. split; intros [rest E]; exists rest.
        -- simpl. now rewrite E.
        -- simpl in E. now injection E.
      * split; [discriminate|]. intros [rest E]. simpl in E.
        injection E as E _. now subst.
Qed.

Lemma contains_nil (needle : string) :
  contains "" needle = String.prefix needle "" || false.
Proof. reflexivity. Qed.

Lemma contains_cons (c : ascii) (hay needle : string) :
  contains (String c hay) needle
  = String.prefix needle (String c hay) || contains hay needle.
Proof. reflexivity. Qed.

(** [contains] is the substring test. *)
Lemma contains_substring (hay needle : string) :
  contains hay needle = true <->
  exists before after, hay = before +:+ needle +:+ after.
Proof.
  induction hay as [|c hay IH];
    [rewrite contains_nil | rewrite contains_cons];
    rewrite orb_true_iff, prefix_append.
  - split.
    + intros [[rest E]|Hf]; [|discriminate]. now exists "", rest.
    + intros (before & after & E). left.
      destruct before; [now exists after | discriminate E].
  - rewrite IH. split.
    + intros [[rest E]|(before & after & E)].
      * now exists "", rest.
      * exists (String c before), after. simpl. now rewrite E.
    + intros (before & after & E). destruct before as [|d before].
      * left. now exists after.
      * right. exists before, after. simpl in E. now injection E.
Qed.

Lemma lower_append (s t : string) : lower (s +:+ t) = lower s +:+ lower t.
Proof. induction s as [|c s IH]; simpl; [reflexivity | now rewrite IH]. Qed.

(** A string whose lower-casing is made of two parts is made of two parts
    with these lower-casings. *)
Lemma lower_append_inv (s x y : string) :
  lower s = x +:+ y ->
  exists s1 s2, s = s1 +:+ s2 /\ lower s1 = x /\ lower s2 = y.
Proof.
  revert s. induction x as [|c x IH]; intros s E.
  - now exists "", s.
  - destruct s as [|d s]; [discriminate E|].
    simpl in E. injection E as Ec E.
    destruct (IH s E) as (s1 & s2 & -> & E1 & E2).
    exists (String d s1), s2. simpl. now rewrite Ec, E1.
Qed.

(** *** Case folding against the alphabet *)

Lemma in_range_bounds (lo hi c : ascii) :
  in_range lo hi c = true <->
  (N_of_ascii lo <= N_of_ascii c /\ N_of_ascii c <= N_of_ascii hi)%N.
Proof.
  unfold in_range. now rewrite andb_true_iff, !N.leb_le.
Qed.

(** A capital letter stands in the alphabet with its lower-casing. *)
Lemma capital_in_letters (c : ascii) :
  in_range "A" "Z" c = true -> In (c, lower_char c) letters.
Proof.
  destruct c as [[] [] [] [] [] [] [] []]; intros Hc;
    try discriminate Hc; vm_compute; tauto.
Qed.

(** The alphabet pairs a capital letter with its lower-casing, which is no
    capital letter. *)
Lemma letters_lower (c d : ascii) :
  In (c, d) letters ->
  in_range "A" "Z" c = true /\ d = lower_char c /\ in_range "A" "Z" d = false.
Proof.
  unfold letters. cbn [list_ascii_of_string combine In]. intros Hin.
  repeat (destruct Hin as [[= <- <-]|Hin]; [now vm_compute|]).
  contradiction.
Qed.

(** Lower-casing tells capital letters apart. *)
Lemma lower_char_capitals (c d : ascii) :
  in_range "A" "Z" c = true -> in_range "A" "Z" d = true ->
  lower_char c = lower_char d -> c = d.
Proof.
  unfold lower_char. intros Hc Hd. rewrite Hc, Hd.
  apply in_range_bounds in Hc, Hd. cbn in Hc, Hd. intros E.
  apply (f_equal N_of_ascii) in E.
  rewrite !N_ascii_embedding in E by lia.
  rewrite <- (ascii_N_embedding c), <- (ascii_N_embedding d).
  f_equal. lia.
Qed.

(** Two characters have the same lower-casing exactly when they are the
    same letter of the alphabet, or the same character. *)
Lemma lower_char_same_letter (c d : ascii) :
  lower_char c = lower_char d <-> same_letter c d.
Proof.
  unfold same_letter. split.
  - intros E.
    destruct (in_range "A" "Z" c) eqn:Hc, (in_range "A" "Z" d) eqn:Hd.
    + left. now apply lower_char_capitals.
    + right. left. pose proof (capital_in_letters c Hc) as Hin.
      rewrite E in Hin. unfold lower_char in Hin. now rewrite Hd in Hin.
    + right. right. pose proof (capital_in_letters d Hd) as Hin.
      rewrite <- E in Hin. unfold lower_char in Hin. now rewrite Hc in Hin.
    + left. unfold lower_char in E. now rewrite Hc, Hd in E.
  - intros [->|[Hin|Hin]]; [reflexivity| |];
      apply letters_lower in Hin as (_ & -> & Hn);
      unfold lower_char at 2 + unfold lower_char at 1;
      now rewrite Hn.
Qed.

Lemma lower_same_text (s t : string) : lower s = lower t <-> same_text s t.
Proof.
  split.
  - revert t. induction s as [|c s IH]; intros [|d t] E; try discriminate E.
    + constructor.
    + simpl in E. injection E as Ec E.
      constructor; [now apply lower_char_same_letter | now apply IH].
  - induction 1 as [|c d s t Hcd _ IH]; [reflexivity|].
    simpl. apply lower_char_same_letter in Hcd. now rewrite Hcd, IH.
Qed.

Lemma same_text_refl (s : string) : same_text s s.
Proof. now apply lower_same_text. Qed.

(** [icontains] finds exactly the words that occur without regard to
    case. *)
Lemma icontains_occurs_in (field word : string) :
  icontains field word = true <-> occurs_in word field.
Proof.
  unfold icontains, occurs_in. rewrite contains_substring. split.
  - intros (x & z & E).
    apply lower_append_inv in E as (before & rest & -> & <- & E).
    apply lower_append_inv in E as (part & after & -> & E & <-).
    exists before, part, after. split; [reflexivity|].
    now apply lower_same_text.
  - intros (before & part & after & -> & Hsame).
    apply lower_same_text in Hsame.
    exists (lower before), (lower after). now rewrite !lower_append, Hsame.
Qed.

(** A part of a string occurs in it. *)
Lemma occurs_in_part (before word after : string) :
  occurs_in word (before +:+ word +:+ after).
Proof. exists before, word, after. split; [reflexivity | apply same_text_refl]. Qed.

Lemma split_nonempty (sep : ascii) (s : string) : split sep s <> [].
Proof.
  destruct s as [|c s]; simpl; [discriminate|].
  destruct (Ascii.eqb c sep); [discriminate|].
  destruct (split sep s); discriminate.
Qed.

Lemma concat_grow_head (sep : string) (c : ascii) (w : string) (ws : list string) :
  String.concat sep (String c w :: ws) = String c (String.concat sep (w :: ws)).
Proof. destruct ws; reflexivity. Qed.

(** Joining the fields with the separator gives the string back. *)
Lemma join_split (sep : ascii) (s : string) :
  String.concat (String sep "") (split sep s) = s.
Proof.
  induction s as [|c s IH]; [reflexivity|].
  pose proof (split_nonempty sep s) as Hn.
  cbn [split]. destruct (Ascii.eqb_spec c sep) as [->|Hne];
    destruct (split sep s) as [|w ws]; try contradiction.
  - change (String sep (String.concat (String sep "") (w :: ws)) = String sep s).
    now rewrite IH.
  - rewrite concat_grow_head. now rewrite IH.
Qed.

(** No field holds the separator. *)
Lemma split_no_sep (sep : ascii) (s w : string) :
  In w (split sep s) -> contains w (String sep "") = false.
Proof.
  revert w. induction s as [|c s IH]; simpl; intros w Hw.
  - destruct Hw as [<-|[]]. reflexivity.
  - destruct (Ascii.eqb_spec c sep) as [->|Hne].
    + destruct Hw as [<-|Hw]; [reflexivity | now apply IH].
    + pose proof (split_nonempty sep s) as Hn.
      destruct (split sep s) as [|v vs]; [contradiction|].
      destruct Hw as [<-|Hw]; [|apply IH; now right].
      rewrite contains_cons, (IH v) by now left.
      simpl. destruct (ascii_dec sep c) as [->|_]; [contradiction | reflexivity].
Qed.

(** A string without the separator is one field, and such a string
    before a separator is the first field. *)
Lemma split_free (sep : ascii) (f : string) :
  free_of sep f -> split sep f = [f].
Proof.
  unfold free_of. induction f as [|c f IH]; simpl; intros Hf; [reflexivity|].
  destruct (Ascii.eqb_spec c sep) as [->|Hne]; [exfalso; apply Hf; now left|].
  rewrite IH; [reflexivity|]. intros Hin. apply Hf. now right.
Qed.

Lemma split_free_sep (sep : ascii) (f s : string) :
  free_of sep f -> split sep (f +:+ String sep s) = f :: split sep s.
Proof.
  unfold free_of. induction f as [|c f IH]; simpl; intros Hf.
  - now rewrite Ascii.eqb_refl.
  - destruct (Ascii.eqb_spec c sep) as [->|Hne]; [exfalso; apply Hf; now left|].
    rewrite IH; [reflexivity|]. intros Hin. apply Hf. now right.
Qed.

(** Splitting what joining gives returns the fields, when there is one at
    least and none holds the separator. *)
Lemma split_join (sep : ascii) (fields : list string) :
  fields <> [] ->
  (forall field, In field fields -> free_of sep field) ->
  split sep (String.concat (String sep "") fields) = fields.
Proof.
  induction fields as [|f fields IH]; [contradiction|]. intros _ Hfree.
  destruct fields as [|g fields].
  - apply split_free, Hfree. now left.
  - change (String.concat (String sep "") (f :: g :: fields))
      with (f +:+ String sep "" +:+ String.concat (String sep "") (g :: fields)).
    change (String sep "" +:+ String.concat (String sep "") (g :: fields))
      with (String sep (String.concat (String sep "") (g :: fields))).
    rewrite split_free_sep by (apply Hfree; now left).
    rewrite IH; [reflexivity | discriminate|].
    intros field Hin. apply Hfree. now right.
Qed.

(** The fields that [split] gives hold no separator. *)
Lemma split_fields_free (sep : ascii) (s w : string) :
  In w (split sep s) -> free_of sep w.
Proof.
  unfold free_of. revert w. induction s as [|c s IH]; simpl; intros w Hw.
  - destruct Hw as [<-|[]]. simpl. tauto.
  - pose proof (split_nonempty sep s) as Hn.
    destruct (Ascii.eqb_spec c sep) as [->|Hne].
    + destruct Hw as [<-|Hw]; [simpl; tauto | now apply IH].
    + destruct (split sep s) as [|v vs]; [contradiction|].
      destruct Hw as [<-|Hw]; [|apply IH; now right].
      simpl. intros [E|Hin]; [congruence|]. revert Hin. apply IH. now left.
Qed.

(** [split] gives the fields of the string, and they are the only ones. *)
Lemma split_fields_of (sep : ascii) (s : string) : fields_of sep s (split sep s).
Proof.
  split; [apply split_nonempty|]. split; [apply join_split|].
  intros field. apply split_fields_free.
Qed.

Lemma fields_of_split (sep : ascii) (s : string) (fields : list string) :
  fields_of sep s fields -> split sep s = fields.
Proof. intros (Hne & <- & Hfree). now apply split_join. Qed.

(** The first field starts the string. *)
Lemma split_head (sep : ascii) (s v : string) (vs : list string) :
  split sep s = v :: vs -> exists after, s = v +:+ after.
Proof.
  revert v vs. induction s as [|c s IH]; simpl; intros v vs E.
  - injection E as <- _. now exists "".
  - destruct (Ascii.eqb c sep).
    + injection E as <- _. now exists (String c s).
    + pose proof (split_nonempty sep s) as Hn.
      destruct (split sep s) as [|u us]; [contradiction|].
      injection E as <- _. destruct (IH u us eq_refl) as [after ->].
      now exists after.
Qed.

(** Every field is a part of the string. *)
Lemma split_part (sep : ascii) (s w : string) :
  In w (split sep s) -> exists before after, s = before +:+ w +:+ after.
Proof.
  revert w. induction s as [|c s IH]; simpl; intros w Hw.
  - destruct Hw as [<-|[]]. now exists "", "".
  - destruct (Ascii.eqb c sep).
    + destruct Hw as [<-|Hw].
      * now exists "", (String c s).
      * destruct (IH w Hw) as (before & after & ->).
        now exists (String c before), after.
    + pose proof (split_nonempty sep s) as Hn.
      destruct (split sep s) as [|v vs] eqn:Es; [contradiction|].
      destruct Hw as [<-|Hw].
      * destruct (split_head _ _ _ _ Es) as [after ->].
        now exists "", after.
      * destruct (IH w (or_intror Hw)) as (before & after & ->).
        now exists (String c before), after.
Qed.

(** ** Resolution and search *)

Lemma In_insert_desc {A : Type} (key : A -> nat) (a x : A) (l : list A) :
  In x (insert_desc key a l) <-> x = a \/ In x l.
Proof.
  induction l as [|b l IH]; simpl.
  - intuition.
  - destruct (key b <=? key a)%nat; simpl; rewrite ?IH; intuition.
Qed.

(** Sorting keeps the elements. *)
Lemma In_sorted_desc {A : Type} (key : A -> nat) (x : A) (l : list A) :
  In x (sorted_desc key l) <-> In x l.
Proof.
  unfold sorted_desc. induction l as [|a l IH]; simpl; [tauto|].
  rewrite In_insert_desc, IH. intuition.
Qed.

(** Sorting puts the largest keys first. *)
Lemma sorted_desc_sorted {A : Type} (key : A -> nat) (l : list A) :
  StronglySorted (fun x y => (key y <= key x)%nat) (sorted_desc key l).
Proof.
  unfold sorted_desc. induction l as [|a l IH]; simpl; [constructor|].
  induction IH as [|b l' Hs IHs Hb]; simpl.
  - repeat constructor.
  - destruct (Nat.leb_spec (key b) (key a)) as [Hle|Hlt].
    + constructor; [now constructor|].
      constructor; [exact Hle|].
      eapply Forall_impl; [exact Hb|]. simpl. intros y Hy. lia.
    + constructor; [exact IHs|].
      apply List.Forall_forall. intros y Hy.
      apply In_insert_desc in Hy as [->|Hy]; [lia|].
      rewrite List.Forall_forall in Hb. auto.
Qed.

Lemma word_matches_found (name : string) (titles : Titles) (word : string) :
  word_matches name titles word = true <-> token_found name titles word.
Proof.
  unfold word_matches, token_found, titles_icontains.
  rewrite orb_true_iff, existsb_exists, icontains_occurs_in.
  split; (intros [Hn|Ht]; [now left|right]).
  - destruct Ht as ([lang title] & Hin & Ht).
    exists lang, title. now rewrite <- icontains_occurs_in.
  - destruct Ht as (lang & title & Hin & Ht).
    exists (lang, title). now rewrite icontains_occurs_in.
Qed.

Lemma In_filter_words {A : Type} (name : A -> string) (titles : A -> Titles)
      (queryset : list A) (words : list string) (item : A) :
  In item (filter_words name titles queryset words) <->
  In item queryset /\
  forall word, In word words -> word_matches (name item) (titles item) word = true.
Proof.
  unfold filter_words. revert queryset.
  induction words as [|w words IH]; simpl; intros queryset.
  - intuition.
  - rewrite IH, filter_In. split.
    + intros [[Hin Hw] Hrest]. split; [exact Hin|].
      intros word [<-|Hword]; auto.
    + intros [Hin Hall]. auto.
Qed.

(** C6. The token filter. The tokens of a query are the first ten, at
    most, of its fields between single spaces (the fields joined by single
    spaces give the query, and no field holds a space). An entity passes
    [filter_words] exactly when every token occurs, without regard to the
    case of letters, in its name or in some title; an entity that lacks
    one token is left out. *)
Theorem filter_words_conjunctive {A : Type}
        (name : A -> string) (titles : A -> Titles)
        (queryset : list A) (search : string) (item : A) :
  let words := search_words search in
  (exists fields, fields_of " " search fields /\ words = take 10 fields) /\
  (forall fields, fields_of " " search fields -> words = take 10 fields) /\
  (In item (filter_words name titles queryset words) <->
   In item queryset /\
   forall word, In word words -> token_found (name item) (titles item) word) /\
  (forall word, In word words ->
     ~ token_found (name item) (titles item) word ->
     ~ In item (filter_words name titles queryset words)).
Proof.
  intros words.
  assert (Hiff : In item (filter_words name titles queryset words) <->
                 In item queryset /\
                 forall word, In word words ->
                              token_found (name item) (titles item) word).
  { rewrite In_filter_words. split; intros [Hin Hall]; (split; [exact Hin|]);
      intros word Hword; apply word_matches_found; auto. }
  split; [|split; [|split; [exact Hiff|]]].
  - exists (split " " search). split; [apply split_fields_of | reflexivity].
  - intros fields Hfields. unfold words, search_words.
    now rewrite (fields_of_split " " search fields Hfields).
  - intros word Hword Hmiss Hin. apply Hiff in Hin as [_ Hall]. auto.
Qed.

Section SearchFacts.
Context {G : Type} `{Geometry G}.
Variable Request : Type.
Variable area_visible : Request -> AreaLocation.t G -> bool.
Variable group_visible : Request -> LocationGroup.t -> bool.
Variable db : MapData G.

Abbreviation get_location' := (get_location Request area_visible group_visible db).
Abbreviation area_matches' := (area_matches Request area_visible db).
Abbreviation group_matches' := (group_matches Request group_visible db).

Lemma head_filter_In {A : Type} (f : A -> bool) (l : list A) (a : A) :
  head (List.filter f l) = Some a -> In a l /\ f a = true.
Proof.
  intros Hh. apply filter_In.
  destruct (List.filter f l) as [|b l']; [discriminate Hh|].
  injection Hh as ->. now left.
Qed.

(** A direct match that is an area: the query is its name. *)
Lemma get_location_Area (request : Request) (name : string) (a : AreaLocation.t G) :
  get_location' request name = Ok (Some (Area a)) ->
  In a (arealocations db) /\ area_visible request a = true /\
  AreaLocation.name a = name.
Proof.
  unfold get_location.
  destruct (match_coord name) as [[[lvl xs] ys]|].
  { destruct (levels db !! lvl); [|discriminate].
    destruct (int_truediv (int_of_digits xs) 100); cbn; [|discriminate].
    destruct (int_truediv (int_of_digits ys) 100); cbn; discriminate. }
  destruct (startswith name "g:").
  { intros [= E]. destruct (head _); discriminate E. }
  intros [= E]. unfold filter_areas_by_package_access in E.
  destruct (head _) as [a'|] eqn:Eh; [|discriminate E]. injection E as ->.
  apply head_filter_In in Eh as [Hin Hvis].
  apply filter_In in Hin as [Hin Hname]. apply String.eqb_eq in Hname.
  auto.
Qed.

(** The tokens of a query occur in it. *)
Lemma search_words_occur (search word : string) :
  In word (search_words search) -> occurs_in word search.
Proof.
  unfold search_words. intros Hw.
  assert (Hin : In word (split " " search)).
  { apply list_elem_of_In. apply list_elem_of_In in Hw.
    now apply (subseteq_take 10 (split " " search)). }
  destruct (split_part _ _ _ Hin) as (before & after & ->).
  apply occurs_in_part.
Qed.

(** Whenever the query resolves to an area, [search_location] lists that
    area a second time among the area matches. *)
Lemma direct_area_match_repeated (request : Request) (search : string)
      (a : AreaLocation.t G) :
  get_location' request search = Ok (Some (Area a)) ->
  In a (area_matches' request (Some (Area a)) (search_words search)).
Proof.
  intros Hd. apply get_location_Area in Hd as (Hin & Hvis & Hname).
  unfold area_matches. apply In_sorted_desc, In_filter_words. split.
  - apply filter_In. auto.
  - intros word Hword. apply word_matches_found. left.
    rewrite Hname. now apply search_words_occur.
Qed.

(** C10. An identifier that starts with [c:] and does not match the
    coordinate pattern is looked up as an area name, prefix included:
    [get_location] returns the first visible area of that name, so an area
    of that very name that passes the access control is found. *)
Theorem get_location_c_prefix_fallthrough (request : Request) (name : string) :
  startswith name "c:" = true ->
  match_coord name = None ->
  get_location' request name
  = Ok (Area <$> head (filter_areas_by_package_access Request area_visible request
                         (List.filter (fun a => String.eqb (AreaLocation.name a) name)
                                      (arealocations db)))) /\
  forall a, In a (arealocations db) -> AreaLocation.name a = name ->
            area_visible request a = true ->
            exists a', get_location' request name = Ok (Some (Area a')) /\
                       AreaLocation.name a' = name /\
                       area_visible request a' = true /\
                       In a' (arealocations db).
Proof.
  intros Hc Hm.
  assert (Hg : startswith name "g:" = false).
  { unfold startswith in *. apply prefix_append in Hc as [rest ->].
    reflexivity. }
  assert (Hget : get_location' request name
    = Ok (Area <$> head (filter_areas_by_package_access Request area_visible request
                           (List.filter (fun a => String.eqb (AreaLocation.name a) name)
                                        (arealocations db))))).
  { unfold get_location. now rewrite Hm, Hg. }
  split; [exact Hget|].
  intros a Hin Hname Hvis. rewrite Hget.
  unfold filter_areas_by_package_access.
  destruct (List.filter (area_visible request) _) as [|a' l] eqn:Ef.
  - exfalso. assert (Ha : In a []); [|contradiction].
    rewrite <- Ef. apply filter_In. split; [|exact Hvis].
    apply filter_In. split; [exact Hin|]. now apply String.eqb_eq.
  - exists a'. split; [reflexivity|].
    assert (Ha' : In a' (a' :: l)) by now left.
    rewrite <- Ef in Ha'. apply filter_In in Ha' as [Ha' Hv].
    apply filter_In in Ha' as [Ha' Hn]. apply String.eqb_eq in Hn. auto.
Qed.

(** Where resolution does return: without a match of the coordinate
    pattern [get_location] gives a result, and a level that is missing
    gives [None]. *)
Lemma get_location_no_match_returns (request : Request) (name : string) :
  match_coord name = None -> exists r, get_location' request name = Ok r.
Proof.
  intros Hm. unfold get_location. rewrite Hm.
  destruct (startswith name "g:"); eauto.
Qed.

Lemma get_location_missing_level (request : Request) (name lvl xs ys : string) :
  match_coord name = Some (lvl, xs, ys) -> levels db !! lvl = None ->
  get_location' request name = Ok None.
Proof. intros Hm Hl. unfold get_location. now rewrite Hm, Hl. Qed.
End SearchFacts.

(** ** Printing and reading numerals *)

Lemma digits_of_uint_acc (d : Decimal.uint) (acc : positive) :
  int_of_digits_from (Zpos acc) (NilEmpty.string_of_uint d)
  = Zpos (Pos.of_uint_acc d acc).
Proof.
  revert acc. induction d as [|d IH|d IH|d IH|d IH|d IH|d IH|d IH|d IH|d IH|d IH];
    intros acc; [reflexivity|..];
    cbn [NilEmpty.string_of_uint int_of_digits_from Pos.of_uint_acc];
    rewrite <- IH; f_equal; unfold digit_value; cbn [N_of_ascii]; simpl; lia.
Qed.

Lemma digits_of_uint (d : Decimal.uint) :
  int_of_digits_from 0 (NilEmpty.string_of_uint d) = Z.of_N (Pos.of_uint d).
Proof.
  induction d as [|d IH|d IH|d IH|d IH|d IH|d IH|d IH|d IH|d IH|d IH];
    [reflexivity | exact IH | ..];
    cbn [NilEmpty.string_of_uint int_of_digits_from Pos.of_uint];
    apply (digits_of_uint_acc d).
Qed.

Lemma uint_all_digits (d : Decimal.uint) :
  all_chars is_digit (NilEmpty.string_of_uint d) = true.
Proof. induction d; simpl; auto. Qed.

Lemma format_d_pos_string (p : positive) :
  format_d (Zpos p) = NilEmpty.string_of_uint (Pos.to_uint p).
Proof.
  unfold format_d. simpl. unfold NilZero.string_of_uint.
  pose proof (Unsigned.to_uint_nonnil p) as Hn.
  now destruct (Pos.to_uint p).
Qed.

(** [int('%d' % n) == n] for a natural number [n]. *)
Lemma int_of_digits_format_d (n : Z) : 0 <= n -> int_of_digits (format_d n) = n.
Proof.
  intros Hn. destruct n as [|p|p]; [reflexivity| |lia].
  rewrite format_d_pos_string. unfold int_of_digits.
  rewrite digits_of_uint, Unsigned.of_to. reflexivity.
Qed.

(** ['%d' % n] is a run of digits, and not empty. *)
Lemma format_d_digits (n : Z) :
  0 <= n -> all_chars is_digit (format_d n) = true /\ format_d n <> "".
Proof.
  intros Hn. destruct n as [|p|p]; [split; [reflexivity | discriminate] | | lia].
  rewrite format_d_pos_string. split; [apply uint_all_digits|].
  pose proof (Unsigned.to_uint_nonnil p) as Hnil.
  destruct (Pos.to_uint p); try contradiction; discriminate.
Qed.

(** A run of the class followed by a colon is what [span] takes. *)
Lemma span_run (p : ascii -> bool) (run rest : string) :
  all_chars p run = true -> p ":"%char = false ->
  span p (run +:+ String ":" rest) = (run, String ":" rest).
Proof.
  intros Hrun Hcolon. induction run as [|c run IH]; simpl in *.
  - now rewrite Hcolon.
  - apply andb_true_iff in Hrun as [-> Hrun]. now rewrite IH.
Qed.

Lemma span_run_end (p : ascii -> bool) (run : string) :
  all_chars p run = true -> span p run = (run, "").
Proof.
  intros Hrun. induction run as [|c run IH]; simpl in *; [reflexivity|].
  apply andb_true_iff in Hrun as [-> Hrun]. now rewrite IH.
Qed.

(** The pattern reads back what the format string printed. *)
Lemma match_coord_format (lvl : string) (xd yd : Z) :
  is_level_name lvl = true -> 0 <= xd -> 0 <= yd ->
  match_coord ("c:" +:+ lvl +:+ ":" +:+ format_d xd +:+ ":" +:+ format_d yd)
  = Some (lvl, format_d xd, format_d yd).
Proof.
  intros Hlvl Hx Hy. unfold is_level_name in Hlvl.
  apply andb_true_iff in Hlvl as [Hne Hchars].
  destruct (format_d_digits xd Hx) as [Hxd Hxn].
  destruct (format_d_digits yd Hy) as [Hyd Hyn].
  change ("c:" +:+ lvl +:+ ":" +:+ format_d xd +:+ ":" +:+ format_d yd)
    with (String "c" (String ":"
            (lvl +:+ String ":" (format_d xd +:+ String ":" (format_d yd))))).
  cbn [match_coord].
  rewrite (span_run _ _ _ Hchars eq_refl).
  destruct lvl as [|c lvl]; [discriminate Hne|].
  rewrite (span_run _ _ _ Hxd eq_refl).
  destruct (format_d xd) as [|cx sx]; [contradiction|].
  rewrite (span_run_end _ _ Hyd).
  destruct (format_d yd) as [|cy sy]; [contradiction|].
  reflexivity.
Qed.

Lemma bind_Ok_inv {A B : Type} (r : result A) (k : A -> result B) (v : B) :
  (a ← r; k a) = Ok v -> exists a, r = Ok a /\ k a = Ok v.
Proof. destruct r as [a|e]; cbn; [eauto | discriminate]. Qed.

Section RoundTrip.
Context {G : Type} `{Geometry G}.
Variable Request : Type.
Variable area_visible : Request -> AreaLocation.t G -> bool.
Variable group_visible : Request -> LocationGroup.t -> bool.
Variable db : MapData G.

(** Where the round trip holds: for a level of the table under a name that
    the pattern accepts, and raw coordinates that [location_id] prints
    unchanged, resolving the identifier of the point gives the point back.
    The round trip is lost only where [x*100] falls below the integer. *)
Lemma point_roundtrip_when_printed_exact
      (request : Request) (level : Level.t) (x_raw y_raw : Z) :
  levels db !! Level.name level = Some level ->
  is_level_name (Level.name level) = true ->
  0 <= x_raw -> 0 <= y_raw ->
  printed_raw x_raw = Ok x_raw -> printed_raw y_raw = Ok y_raw ->
  exists p id,
    point_of_raw level x_raw y_raw = Ok p /\
    PointLocation.location_id p = Ok id /\
    get_location Request area_visible group_visible db request id
    = Ok (Some (Point p)).
Proof.
  intros Hlevel Hname Hx Hy Hpx Hpy.
  apply bind_Ok_inv in Hpx as (x & Hdx & Hpx).
  apply bind_Ok_inv in Hpx as (x100 & Hmx & Hix).
  apply bind_Ok_inv in Hpy as (y & Hdy & Hpy).
  apply bind_Ok_inv in Hpy as (y100 & Hmy & Hiy).
  exists (PointLocation.Build level x y). eexists. split; [|split].
  - unfold point_of_raw. now rewrite Hdx, Hdy.
  - unfold PointLocation.location_id. cbn [PointLocation.x PointLocation.y].
    rewrite Hmx. cbn. rewrite Hix. cbn. rewrite Hmy. cbn. rewrite Hiy. cbn.
    reflexivity.
  - unfold get_location. cbn [PointLocation.level].
    rewrite (match_coord_format _ _ _ Hname Hx Hy), Hlevel.
    rewrite !int_of_digits_format_d by assumption.
    rewrite Hdx. cbn. rewrite Hdy. reflexivity.
Qed.
End RoundTrip.

(** ** The properties on the example map data *)

Section Examples.
Import Example.

(** The scenario of the specification: [room1] lies in [building] and on
    [floor0]. *)
Lemma room1_in_areas : ex_get_in_areas room1 = Ok [building; floor0].
Proof. vm_compute. reflexivity. Qed.

(** C3, as stated, fails: for [room1] the area [building] (type [area])
    comes before [floor0] (type [level]), the coarser of the two. *)
Lemma get_in_areas_coarsest_first_counterexample :
  ~ (forall l, _get_in_areas Example.db room1 = Ok l -> coarsest_first l).
Proof.
  intros Hall.
  pose proof (Hall [building; floor0] room1_in_areas floor0 building) as Hc.
  assert (Hlt : (1 < 0)%nat); [|lia].
  apply Hc; [right; left; reflexivity | left; reflexivity
             | vm_compute; lia | reflexivity | reflexivity].
Qed.

Lemma get_in_areas_finest_first_witness :
  finest_first [building; floor0].
Proof.
  apply (get_in_areas_finest_first Example.db room1 [building; floor0]).
  vm_compute. reflexivity.
Defined.

(** The two sides of the threshold: [cover9900] covers exactly 0.99 of
    [strip] and is left out, [cover9901] covers 0.9901 and is in. *)
Lemma strip_ratios :
  float_truediv (overlap_area strip cover9900)
                (geom_area (AreaLocation.geometry strip)) = Ok float_0_99 /\
  float_truediv (overlap_area strip cover9901)
                (geom_area (AreaLocation.geometry strip)) = Ok float_0_9901.
Proof. split; vm_compute; reflexivity. Qed.

Lemma strip_in_areas : ex_get_in_areas strip = Ok [cover9901].
Proof. vm_compute. reflexivity. Qed.

Lemma get_in_areas_threshold_witness :
  exists l, _get_in_areas Example.db strip = Ok l /\
            ~ In cover9900 l /\ In cover9901 l.
Proof.
  destruct (get_in_areas_threshold Example.db strip) as [Hret Hres].
  destruct Hret as [l Hl]; [vm_compute; reflexivity|].
  destruct (Hres l Hl) as (_ & Hout & Hin).
  exists l. split; [exact Hl|]. split.
  - apply Hout; [|apply strip_ratios].
    repeat split; [simpl; tauto | vm_compute; lia].
  - apply Hin; [|apply strip_ratios].
    repeat split; [simpl; tauto | vm_compute; lia].
Defined.

Lemma get_in_areas_zero_area_witness :
  _get_in_areas Example.db dot = Ok [] /\
  forall c, In c (arealocations Example.db) -> truthy (overlap_area dot c) = false.
Proof.
  apply (get_in_areas_zero_area Example.db dot).
  - vm_compute. reflexivity.
  - intros c Hc. simpl in Hc.
    repeat (destruct Hc as [<-|Hc]; [split; vm_compute; reflexivity|]).
    contradiction.
Defined.

(** C1. The identifier of the point [(ground, 29/100, 0/100)] is
    [c:ground:28:0]: [0.29 * 100] is the float just below 29 and [%d]
    cuts it to 28. Resolving that identifier gives another point. *)
Theorem point_location_id_roundtrip_29 :
  exists p q,
    point_of_raw ground 29 0 = Ok p /\
    PointLocation.location_id p = Ok "c:ground:28:0" /\
    ex_get_location "c:ground:28:0" = Ok (Some (Point q)) /\
    point_of_raw ground 28 0 = Ok q /\
    SFeqb (PointLocation.x q) (PointLocation.x p) = false.
Proof.
  eexists. eexists.
  split; [vm_compute; reflexivity|].
  split; [vm_compute; reflexivity|].
  split; [vm_compute; reflexivity|].
  split; vm_compute; reflexivity.
Qed.

(** The scenario of the specification does come back unchanged. *)
Lemma point_location_id_roundtrip_150_250 :
  exists p,
    ex_get_location "c:ground:150:250" = Ok (Some (Point p)) /\
    point_of_raw ground 150 250 = Ok p /\
    PointLocation.location_id p = Ok "c:ground:150:250".
Proof. eexists. repeat split; vm_compute; reflexivity. Qed.

(** The raw coordinates below 300 that [location_id] prints as another
    number. *)
Lemma printed_raw_differs_below_300 :
  List.filter (fun n => match printed_raw n with
                        | Ok m => negb (m =? n)
                        | Raise _ => true
                        end)
              (map Z.of_nat (seq 0 300))
  = [29; 57; 58; 113; 114; 115; 116; 201; 203; 205; 207; 226; 228; 230;
     232; 251; 253; 255].
Proof. vm_compute. reflexivity. Qed.

(** C2. The query [room1] resolves to the area [room1], and the area
    matches hold it once more; the query [g:crew] resolves to the group
    [crew], and the group matches hold it once more. *)
Theorem search_location_repeats_direct_match :
  ex_get_location "room1" = Ok (Some (Area room1)) /\
  ex_search_location "room1" = Ok [Area room1; Area room1] /\
  ex_get_location "g:crew" = Ok (Some (Group crew)) /\
  ex_search_location "g:crew" = Ok [Group crew; Group crew].
Proof. repeat split; vm_compute; reflexivity. Qed.

(** C7. With the level [ground] in the level table, the identifier
    [huge_identifier] matches the coordinate pattern, and the division of
    its first numeral by 100 raises [OverflowError]. *)
Theorem get_location_raises_overflow :
  match_coord huge_identifier = Some ("ground", "1" +:+ zeros 400, "0") /\
  ex_get_location huge_identifier = Raise OverflowError.
Proof. split; vm_compute; reflexivity. Qed.

Lemma get_location_c_prefix_fallthrough_witness :
  ex_get_location "c:ground:a:b" = Ok (Some (Area odd)).
Proof.
  destruct (get_location_c_prefix_fallthrough unit everything everything
              Example.db tt "c:ground:a:b") as [Hget _].
  - reflexivity.
  - reflexivity.
  - unfold ex_get_location. rewrite Hget. vm_compute. reflexivity.
Defined.

(** A query of two tokens finds the areas that hold both. *)
Lemma filter_words_two_tokens :
  map AreaLocation.name
      (filter_words AreaLocation.name AreaLocation.titles
                    (arealocations Example.db) (search_words "ROOM one"))
  = ["room1"].
Proof. vm_compute. reflexivity. Qed.

Lemma filter_words_conjunctive_witness :
  search_words "ROOM one" = ["ROOM"; "one"] /\
  In room1
     (filter_words AreaLocation.name AreaLocation.titles
                   (arealocations Example.db) (search_words "ROOM one")) /\
  ~ In building
      (filter_words AreaLocation.name AreaLocation.titles
                    (arealocations Example.db) (search_words "ROOM one")).
Proof.
  assert (Hfields : fields_of " " "ROOM one" ["ROOM"; "one"]).
  { split; [discriminate|]. split; [reflexivity|].
    intros field [<-|[<-|[]]]; unfold free_of; simpl;
      intros Hin; repeat (destruct Hin as [Hin|Hin]; [discriminate Hin|]);
      exact Hin. }
  destruct (filter_words_conjunctive AreaLocation.name AreaLocation.titles
              (arealocations Example.db) "ROOM one" room1)
    as (_ & Hwords & [_ Hpass] & _).
  destruct (filter_words_conjunctive AreaLocation.name AreaLocation.titles
              (arealocations Example.db) "ROOM one" building)
    as (_ & _ & _ & Hmiss).
  specialize (Hwords _ Hfields).
  split; [exact Hwords|]. split.
  - apply Hpass. split; [simpl; tauto|]. rewrite Hwords.
    intros word [<-|[<-|[]]]; apply word_matches_found; reflexivity.
  - apply (Hmiss "ROOM").
    + rewrite Hwords. left. reflexivity.
    + intros Hfound. apply word_matches_found in Hfound. discriminate Hfound.
Defined.
End Examples.

(** ** More on resolution and search *)

Section ResolutionFacts.
Context {G : Type} `{Geometry G}.
Variable Request : Type.
Variable area_visible : Request -> AreaLocation.t G -> bool.
Variable group_visible : Request -> LocationGroup.t -> bool.
Variable db : MapData G.

Abbreviation resolve := (get_location Request area_visible group_visible db).
Abbreviation search := (search_location Request area_visible group_visible db).

Lemma get_location_Point_inv (request : Request) (name : string) (p : PointLocation.t) :
  resolve request name = Ok (Some (Point p)) ->
  exists lvl xs ys,
    match_coord name = Some (lvl, xs, ys) /\
    levels db !! lvl = Some (PointLocation.level p) /\
    int_truediv (int_of_digits xs) 100 = Ok (PointLocation.x p) /\
    int_truediv (int_of_digits ys) 100 = Ok (PointLocation.y p).
Proof.
  unfold get_location.
  destruct (match_coord name) as [[[lvl xs] ys]|] eqn:Em.
  - destruct (levels db !! lvl) as [level|] eqn:El; [|discriminate].
    destruct (int_truediv (int_of_digits xs) 100) as [x|] eqn:Ex; cbn; [|discriminate].
    destruct (int_truediv (int_of_digits ys) 100) as [y|] eqn:Ey; cbn; [|discriminate].
    intros [= <-]. exists lvl, xs, ys. auto.
  - destruct (startswith name "g:"); intros [= E]; destruct (head _); discriminate E.
Qed.

Lemma get_location_Group_inv (request : Request) (name : string) (g : LocationGroup.t) :
  resolve request name = Ok (Some (Group g)) ->
  match_coord name = None /\
  name = LocationGroup.location_id g /\
  In g (locationgroups db) /\ group_visible request g = true.
Proof.
  unfold get_location.
  destruct (match_coord name) as [[[lvl xs] ys]|] eqn:Em.
  - destruct (levels db !! lvl) as [level|] eqn:El; [|discriminate].
    destruct (int_truediv (int_of_digits xs) 100) as [x|] eqn:Ex; cbn; [|discriminate].
    destruct (int_truediv (int_of_digits ys) 100) as [y|] eqn:Ey; cbn; discriminate.
  - destruct (startswith name "g:") eqn:Eg.
    + intros [= E]. unfold filter_groups_by_package_access in E.
      destruct (head _) as [g'|] eqn:Eh; [|discriminate E]. injection E as ->.
      apply head_filter_In in Eh as [Hin Hvis].
      apply filter_In in Hin as [Hin Hname]. apply String.eqb_eq in Hname.
      repeat split; try assumption.
      unfold LocationGroup.location_id. rewrite Hname.
      apply prefix_append in Eg as [rest ->]. reflexivity.
    + intros [= E]. destruct (head _); discriminate E.
Qed.

Lemma get_location_Area_inv (request : Request) (name : string) (a : AreaLocation.t G) :
  resolve request name = Ok (Some (Area a)) ->
  match_coord name = None /\ startswith name "g:" = false /\
  name = AreaLocation.location_id a /\
  In a (arealocations db) /\ area_visible request a = true.
Proof.
  intros Hres.
  destruct (get_location_Area _ _ _ _ _ _ _ Hres) as (Hin & Hvis & Hname).
  revert Hres. unfold get_location.
  destruct (match_coord name) as [[[lvl xs] ys]|] eqn:Em.
  - destruct (levels db !! lvl) as [level|] eqn:El; [|discriminate].
    destruct (int_truediv (int_of_digits xs) 100) as [x|] eqn:Ex; cbn; [|discriminate].
    destruct (int_truediv (int_of_digits ys) 100) as [y|] eqn:Ey; cbn; discriminate.
  - destruct (startswith name "g:") eqn:Eg.
    + intros [= E]. destruct (head _); discriminate E.
    + intros _. auto.
Qed.

(** What [get_location] returns is of the kind that the identifier spells,
    is in the map data, and is visible to the request. *)
Theorem get_location_sound (request : Request) (name : string) (loc : Location G) :
  resolve request name = Ok (Some loc) ->
  match loc with
  | Point p =>
      exists lvl xs ys,
        match_coord name = Some (lvl, xs, ys) /\
        levels db !! lvl = Some (PointLocation.level p) /\
        int_truediv (int_of_digits xs) 100 = Ok (PointLocation.x p) /\
        int_truediv (int_of_digits ys) 100 = Ok (PointLocation.y p)
  | Group g =>
      match_coord name = None /\
      name = LocationGroup.location_id g /\
      In g (locationgroups db) /\ group_visible request g = true
  | Area a =>
      match_coord name = None /\ startswith name "g:" = false /\
      name = AreaLocation.location_id a /\
      In a (arealocations db) /\ area_visible request a = true
  end.
Proof.
  destruct loc as [p|a|g]; intros Hres.
  - exact (get_location_Point_inv _ _ _ Hres).
  - exact (get_location_Area_inv _ _ _ Hres).
  - exact (get_location_Group_inv _ _ _ Hres).
Qed.

(** An area whose name starts with [g:] or matches the coordinate pattern
    is never what [get_location] returns, whatever the identifier. *)
Theorem get_location_shadowed_area (request : Request) (name : string)
        (a : AreaLocation.t G) :
  startswith (AreaLocation.name a) "g:" = true \/
  match_coord (AreaLocation.name a) <> None ->
  resolve request name <> Ok (Some (Area a)).
Proof.
  intros Hshadow Hres. apply get_location_Area_inv in Hres as (Hm & Hg & Hn & _).
  unfold AreaLocation.location_id in Hn. subst name.
  destruct Hshadow as [Hs|Hs]; congruence.
Qed.

Lemma head_filter_unique {A : Type} (f : A -> bool) (l : list A) (x : A) :
  In x l -> f x = true -> (forall y, In y l -> f y = true -> y = x) ->
  head (List.filter f l) = Some x.
Proof.
  induction l as [|y l IH]; simpl; intros Hin Hf Huniq; [contradiction|].
  destruct (f y) eqn:Efy.
  - simpl. f_equal. apply Huniq; auto.
  - destruct Hin as [->|Hin]; [congruence|]. apply IH; auto.
Qed.

(** The identifier of a group resolves to the group: for a visible group
    whose name no other group of the table bears. *)
Theorem group_location_id_roundtrip (request : Request) (g : LocationGroup.t) :
  In g (locationgroups db) -> group_visible request g = true ->
  (forall g', In g' (locationgroups db) ->
              LocationGroup.name g' = LocationGroup.name g -> g' = g) ->
  resolve request (LocationGroup.location_id g) = Ok (Some (Group g)).
Proof.
  intros Hin Hvis Huniq. unfold get_location, LocationGroup.location_id.
  cbn [match_coord append].
  replace (startswith ("g:" +:+ LocationGroup.name g) "g:") with true
    by (symmetry; apply prefix_append; eauto).
  cbn [drop_chars append]. unfold filter_groups_by_package_access.
  rewrite (head_filter_unique _ _ g); [reflexivity| |exact Hvis|].
  - apply filter_In. split; [exact Hin | apply String.eqb_refl].
  - intros g' Hg' _. apply filter_In in Hg' as [Hg' Hn].
    apply String.eqb_eq in Hn. auto.
Qed.

(** The identifier of an area resolves to the area: for a visible area
    whose name no other area bears, does not start with [g:] and does not
    match the coordinate pattern. *)
Theorem area_location_id_roundtrip (request : Request) (a : AreaLocation.t G) :
  In a (arealocations db) -> area_visible request a = true ->
  (forall a', In a' (arealocations db) ->
              AreaLocation.name a' = AreaLocation.name a -> a' = a) ->
  startswith (AreaLocation.name a) "g:" = false ->
  match_coord (AreaLocation.name a) = None ->
  resolve request (AreaLocation.location_id a) = Ok (Some (Area a)).
Proof.
  intros Hin Hvis Huniq Hg Hm. unfold get_location, AreaLocation.location_id.
  rewrite Hm, Hg. unfold filter_areas_by_package_access.
  rewrite (head_filter_unique _ _ a); [reflexivity| |exact Hvis|].
  - apply filter_In. split; [exact Hin | apply String.eqb_refl].
  - intros a' Ha' _. apply filter_In in Ha' as [Ha' Hn].
    apply String.eqb_eq in Hn. auto.
Qed.
End ResolutionFacts.

(** ** The coordinate pattern, and what resolution raises *)

Lemma append_empty_r (s : string) : s +:+ "" = s.
Proof.
  induction s as [|c s IH]; [reflexivity|].
  change (String c (s +:+ "") = String c s). now rewrite IH.
Qed.

Lemma span_inv (p : ascii -> bool) (s run rest : string) :
  span p s = (run, rest) ->
  s = run +:+ rest /\ all_chars p run = true /\
  match rest with
  | EmptyString => True
  | String c _ => p c = false
  end.
Proof.
  revert run rest. induction s as [|c s IH]; simpl; intros run rest E.
  - injection E as <- <-. auto.
  - destruct (p c) eqn:Ep.
    + destruct (span p s) as [run' rest'] eqn:Es. injection E as <- <-.
      destruct (IH run' rest' eq_refl) as (-> & Hall & Hrest).
      simpl. rewrite Ep. auto.
    + injection E as <- <-. simpl. auto.
Qed.

Lemma span_run_then (p : ascii -> bool) (run : string) (c : ascii) (rest : string) :
  all_chars p run = true -> p c = false ->
  span p (run +:+ String c rest) = (run, String c rest).
Proof.
  intros Hrun Hc. induction run as [|d run IH]; simpl in *.
  - now rewrite Hc.
  - apply andb_true_iff in Hrun as [-> Hrun]. now rewrite IH.
Qed.

Lemma at_end_iff (s : string) : at_end s = true <-> s = "" \/ s = newline.
Proof.
  unfold at_end. rewrite orb_true_iff, !String.eqb_eq. tauto.
Qed.

Lemma match_coord_shape (name lvl xs ys : string) :
  match_coord name = Some (lvl, xs, ys) <->
  (exists tail, (tail = "" \/ tail = newline) /\
                name = "c:" +:+ lvl +:+ ":" +:+ xs +:+ ":" +:+ ys +:+ tail) /\
  lvl <> "" /\ all_chars is_level_char lvl = true /\
  xs <> "" /\ all_chars is_digit xs = true /\
  ys <> "" /\ all_chars is_digit ys = true.
Proof.
  split.
  - unfold match_coord.
    destruct name as [|c0 [|c1 r0]]; try discriminate;
      try (destruct c0 as [[] [] [] [] [] [] [] []]; discriminate).
    destruct (ascii_dec c0 "c") as [->|Hc0].
    2: { destruct c0 as [[] [] [] [] [] [] [] []]; try discriminate; congruence. }
    destruct (ascii_dec c1 ":") as [->|Hc1].
    2: { destruct c1 as [[] [] [] [] [] [] [] []]; try discriminate; congruence. }
    destruct (span is_level_char r0) as [l r1] eqn:E0.
    apply span_inv in E0 as (-> & Hl & _).
    destruct l as [|cl l]; [discriminate|].
    destruct r1 as [|c2 r2]; [discriminate|].
    destruct (ascii_dec c2 ":") as [->|Hc2].
    2: { destruct c2 as [[] [] [] [] [] [] [] []]; try discriminate; congruence. }
    destruct (span is_digit r2) as [x r3] eqn:E1.
    apply span_inv in E1 as (-> & Hx & _).
    destruct x as [|cx x]; [discriminate|].
    destruct r3 as [|c3 r4]; [discriminate|].
    destruct (ascii_dec c3 ":") as [->|Hc3].
    2: { destruct c3 as [[] [] [] [] [] [] [] []]; try discriminate; congruence. }
    destruct (span is_digit r4) as [y r5] eqn:E2.
    apply span_inv in E2 as (-> & Hy & _).
    destruct y as [|cy y]; [discriminate|].
    destruct (at_end r5) eqn:Ee; [|discriminate].
    apply at_end_iff in Ee. intros [= <- <- <-].
    split; [exists r5; split; [exact Ee | reflexivity]|].
    repeat split; try assumption; discriminate.
  - intros ((tail & Htail & ->) & Hl & Hlc & Hx & Hxc & Hy & Hyc).
    change ("c:" +:+ lvl +:+ ":" +:+ xs +:+ ":" +:+ ys +:+ tail)
      with (String "c" (String ":"
              (lvl +:+ String ":" (xs +:+ String ":" (ys +:+ tail))))).
    cbn [match_coord].
    rewrite (span_run_then _ lvl ":" _ Hlc eq_refl).
    destruct lvl as [|cl lvl]; [contradiction|].
    rewrite (span_run_then _ xs ":" _ Hxc eq_refl).
    destruct xs as [|cx xs]; [contradiction|].
    assert (Es : span is_digit (ys +:+ tail) = (ys, tail)).
    { destruct Htail as [->| ->].
      - rewrite append_empty_r. now apply span_run_end.
      - now apply span_run_then. }
    rewrite Es. destruct ys as [|cy ys]; [contradiction|].
    assert (Ee : at_end tail = true) by now apply at_end_iff.
    now rewrite Ee.
Qed.

(** The coordinate pattern accepts exactly the strings [c:<level>:<x>:<y>],
    alone or followed by one newline, where the level is a run of small
    letters, digits, hyphens and underscores, [x] and [y] are runs of
    digits, and no run is empty. *)
Theorem match_coord_accepts_iff (name lvl xs ys : string) :
  match_coord name = Some (lvl, xs, ys) <->
  (name = "c:" +:+ lvl +:+ ":" +:+ xs +:+ ":" +:+ ys \/
   name = "c:" +:+ lvl +:+ ":" +:+ xs +:+ ":" +:+ ys +:+ newline) /\
  lvl <> "" /\ all_chars is_level_char lvl = true /\
  xs <> "" /\ all_chars is_digit xs = true /\
  ys <> "" /\ all_chars is_digit ys = true.
Proof.
  pose proof append_empty_r as Hnil.
  rewrite match_coord_shape. split.
  - intros ((tail & [->| ->] & ->) & Hrest); (split; [|exact Hrest]).
    + left. now rewrite Hnil.
    + now right.
  - intros ([->| ->] & Hrest); (split; [|exact Hrest]).
    + exists "". split; [now left | now rewrite Hnil].
    + exists newline. split; [now right | reflexivity].
Qed.


Section ResolutionErrors.
Context {G : Type} `{Geometry G}.
Variable Request : Type.
Variable area_visible : Request -> AreaLocation.t G -> bool.
Variable group_visible : Request -> LocationGroup.t -> bool.
Variable db : MapData G.



(** An identifier of a point and the same identifier with a newline at its
    end resolve alike: the pattern lets the newline pass. *)
Theorem get_location_trailing_newline (request : Request) (lvl xs ys : string) :
  lvl <> "" -> all_chars is_level_char lvl = true ->
  xs <> "" -> all_chars is_digit xs = true ->
  ys <> "" -> all_chars is_digit ys = true ->
  get_location Request area_visible group_visible db request
    ("c:" +:+ lvl +:+ ":" +:+ xs +:+ ":" +:+ ys +:+ newline)
  = get_location Request area_visible group_visible db request
      ("c:" +:+ lvl +:+ ":" +:+ xs +:+ ":" +:+ ys).
Proof.
  intros Hl Hlc Hx Hxc Hy Hyc. unfold get_location.
  assert (E1 : match_coord ("c:" +:+ lvl +:+ ":" +:+ xs +:+ ":" +:+ ys +:+ newline)
               = Some (lvl, xs, ys)).
  { apply match_coord_shape. split; [exists newline; auto | auto 10]. }
  assert (E2 : match_coord ("c:" +:+ lvl +:+ ":" +:+ xs +:+ ":" +:+ ys)
               = Some (lvl, xs, ys)).
  { apply match_coord_shape. split; [|auto 10].
    exists "". split; [now left | now rewrite append_empty_r]. }
  now rewrite E1, E2.
Qed.
End ResolutionErrors.

(** ** Ranking and filtering of the search results *)

Lemma insert_desc_front {A : Type} (key : A -> nat) (a : A) (l : list A) :
  (forall b tl, l = b :: tl -> (key b <= key a)%nat) ->
  insert_desc key a l = a :: l.
Proof.
  destruct l as [|b tl]; simpl; intros Hhd; [reflexivity|].
  specialize (Hhd b tl eq_refl). apply Nat.leb_le in Hhd. now rewrite Hhd.
Qed.

Lemma insert_desc_skip {A : Type} (key : A -> nat) (a : A) (l1 l2 : list A) :
  (forall b, In b l1 -> (key a < key b)%nat) ->
  insert_desc key a (l1 ++ l2) = l1 ++ insert_desc key a l2.
Proof.
  induction l1 as [|b l1 IH]; simpl; intros Hgt; [reflexivity|].
  assert (Hb : (key b <=? key a)%nat = false).
  { apply Nat.leb_gt. apply Hgt. now left. }
  rewrite Hb, IH; auto.
Qed.

Lemma by_keys_cons {A : Type} (key : A -> nat) (k : nat) (ks : list nat) (l : list A) :
  by_keys key (k :: ks) l
  = List.filter (fun x => (key x =? k)%nat) l ++ by_keys key ks l.
Proof. reflexivity. Qed.

Lemma by_keys_skip {A : Type} (key : A -> nat) (ks : list nat) (a : A) (l : list A) :
  ~ In (key a) ks -> by_keys key ks (a :: l) = by_keys key ks l.
Proof.
  induction ks as [|k ks IH]; intros Hnot; [reflexivity|].
  rewrite !by_keys_cons, IH by (intros Hin; apply Hnot; now right).
  f_equal. cbn [List.filter].
  destruct (Nat.eqb_spec (key a) k) as [E|_]; [|reflexivity].
  exfalso. apply Hnot. now left.
Qed.

Lemma In_by_keys {A : Type} (key : A -> nat) (ks : list nat) (l : list A) (b : A) :
  In b (by_keys key ks l) -> In (key b) ks /\ In b l.
Proof.
  unfold by_keys. rewrite in_flat_map. intros (k & Hk & Hb).
  apply filter_In in Hb as [Hb E]. apply Nat.eqb_eq in E. subst k. auto.
Qed.

Lemma insert_desc_by_keys {A : Type} (key : A -> nat) (ks : list nat)
      (a : A) (l : list A) :
  StronglySorted (fun k k' => (k' < k)%nat) ks -> In (key a) ks ->
  insert_desc key a (by_keys key ks l) = by_keys key ks (a :: l).
Proof.
  induction 1 as [|k ks Hs IH Hk]; intros Hin; [contradiction|].
  rewrite List.Forall_forall in Hk.
  rewrite !by_keys_cons. cbn [List.filter]. destruct (Nat.eqb_spec (key a) k) as [E|Hne].
  - rewrite by_keys_skip.
    2: { intros Hin'. specialize (Hk _ Hin'). lia. }
    rewrite <- app_comm_cons.
    apply insert_desc_front. intros b tl Hb.
    assert (Hb' : In b (List.filter (fun x => (key x =? k)%nat) l ++ by_keys key ks l)).
    { rewrite Hb. now left. }
    apply in_app_or in Hb' as [Hb'|Hb'].
    + apply filter_In in Hb' as [_ Eb]. apply Nat.eqb_eq in Eb. lia.
    + apply In_by_keys in Hb' as [Hb' _]. specialize (Hk _ Hb'). lia.
  - destruct Hin as [E|Hin]; [congruence|].
    rewrite insert_desc_skip.
    + now rewrite IH.
    + intros b Hb. apply filter_In in Hb as [_ Eb]. apply Nat.eqb_eq in Eb.
      specialize (Hk _ Hin). lia.
Qed.

(** [sorted(l, key=key, reverse=True)] lists the elements by key, largest
    key first, and the elements of one key in the order of [l]. *)
Lemma sorted_desc_by_keys {A : Type} (key : A -> nat) (ks : list nat) (l : list A) :
  StronglySorted (fun k k' => (k' < k)%nat) ks ->
  (forall a, In a l -> In (key a) ks) ->
  sorted_desc key l = by_keys key ks l.
Proof.
  intros Hs. induction l as [|a l IH]; intros Hkeys.
  - unfold by_keys. symmetry. apply flat_map_none. reflexivity.
  - change (sorted_desc key (a :: l)) with (insert_desc key a (sorted_desc key l)).
    rewrite IH by (intros; apply Hkeys; now right).
    apply insert_desc_by_keys; [exact Hs | apply Hkeys; now left].
Qed.

Lemma get_sort_key_bound {G : Type} (a : AreaLocation.t G) :
  In (AreaLocation.get_sort_key a) [4; 3; 2; 1; 0]%nat.
Proof.
  rewrite get_sort_key_ordinal.
  destruct (AreaLocation.location_type a); vm_compute; tauto.
Qed.

(** [filter_words] is one filter: the items that every word matches. *)
Lemma filter_words_forallb {A : Type} (name : A -> string) (titles : A -> Titles)
      (queryset : list A) (words : list string) :
  filter_words name titles queryset words
  = List.filter (fun item =>
                   forallb (word_matches (name item) (titles item)) words)
                queryset.
Proof.
  unfold filter_words. revert queryset.
  induction words as [|w words IH]; intros queryset; simpl.
  - induction queryset as [|x l IHl]; simpl; [reflexivity | now rewrite <- IHl].
  - rewrite IH. induction queryset as [|x l IHl]; simpl; [reflexivity|].
    destruct (word_matches (name x) (titles x) w); simpl; now rewrite IHl.
Qed.

Lemma word_matches_empty (name : string) (titles : Titles) :
  word_matches name titles "" = true.
Proof.
  unfold word_matches, icontains. simpl.
  now destruct (lower name).
Qed.

(** Empty tokens, which repeated spaces in the query give, filter nothing:
    [filter_words] gives the same with and without them. *)
Theorem filter_words_ignores_empty_tokens {A : Type}
        (name : A -> string) (titles : A -> Titles)
        (queryset : list A) (words : list string) :
  filter_words name titles queryset words
  = filter_words name titles queryset
      (List.filter (fun w => negb (String.eqb w "")) words).
Proof.
  rewrite !filter_words_forallb. apply filter_ext. intros item.
  induction words as [|w words IH]; simpl; [reflexivity|].
  destruct (String.eqb_spec w "") as [->|Hne]; simpl.
  - now rewrite word_matches_empty.
  - now rewrite IH.
Qed.

(** The tokens of a query: at least one, at most ten, none with a space;
    and for a query of fewer than ten spaces, joined by spaces they give
    the query back. *)
Theorem search_words_tokens (query : string) :
  (1 <= length (search_words query) <= 10)%nat /\
  (forall w, In w (search_words query) -> contains w " " = false) /\
  ((length (split " " query) <= 10)%nat ->
   String.concat " " (search_words query) = query).
Proof.
  unfold search_words. split; [|split].
  - rewrite length_take. pose proof (split_nonempty " " query) as Hn.
    destruct (split " " query); [contradiction | cbn [length]; lia].
  - intros w Hw. apply (split_no_sep " " query).
    apply list_elem_of_In. apply list_elem_of_In in Hw.
    now apply (subseteq_take 10 (split " " query)).
  - intros Hlen. rewrite take_ge by exact Hlen. apply join_split.
Qed.

Lemma filter_twice {A : Type} (f g : A -> bool) (l : list A) :
  List.filter f (List.filter g l) = List.filter (fun x => g x && f x) l.
Proof.
  induction l as [|x l IH]; simpl; [reflexivity|].
  destruct (g x); simpl; [destruct (f x)|]; now rewrite IH.
Qed.

Section SearchRanking.
Context {G : Type} `{Geometry G}.
Variable Request : Type.
Variable area_visible : Request -> AreaLocation.t G -> bool.
Variable group_visible : Request -> LocationGroup.t -> bool.
Variable db : MapData G.

(** The area matches are the visible areas that every word matches, finest
    type first, the areas of one type in the order of the table. *)
Theorem area_matches_ranked (request : Request) (location : option (Location G))
        (words : list string) :
  area_matches Request area_visible db request location words
  = by_keys AreaLocation.get_sort_key [4; 3; 2; 1; 0]%nat
      (List.filter
         (fun a => area_visible request a &&
                   forallb (word_matches (AreaLocation.name a) (AreaLocation.titles a))
                           words)
         (arealocations db)).
Proof.
  unfold area_matches, filter_areas_by_package_access.
  rewrite filter_words_forallb, filter_twice.
  apply sorted_desc_by_keys.
  - repeat (apply SSorted_cons;
            [|repeat (apply List.Forall_cons; [lia|]); apply List.Forall_nil]).
    apply SSorted_nil.
  - intros a _. apply get_sort_key_bound.
Qed.

(** The group matches are the first ten visible groups that every word
    matches, in the order of the table. *)
Lemma group_matches_first_ten (request : Request) (location : option (Location G))
        (words : list string) :
  group_matches Request group_visible db request location words
  = take 10
      (List.filter
         (fun g => group_visible request g &&
                   forallb (word_matches (LocationGroup.name g) (LocationGroup.titles g))
                           words)
         (locationgroups db)).
Proof.
  unfold group_matches, filter_groups_by_package_access.
  now rewrite filter_words_forallb, filter_twice.
Qed.

(** [search_location] lists no area and no group that the request may not
    see; a point in the result is the direct match of the query. *)
Theorem search_location_visible (request : Request) (query : string)
        (results : list (Location G)) (loc : Location G) :
  search_location Request area_visible group_visible db request query = Ok results ->
  In loc results ->
  match loc with
  | Point p =>
      get_location Request area_visible group_visible db request query
      = Ok (Some (Point p))
  | Area a => In a (arealocations db) /\ area_visible request a = true
  | Group g => In g (locationgroups db) /\ group_visible request g = true
  end.
Proof.
  unfold search_location. intros Hs Hin.
  apply bind_Ok_inv in Hs as (location & Hloc & Hs). injection Hs as <-.
  rewrite !in_app_iff in Hin. destruct Hin as [[Hin|Hin]|Hin].
  - destruct location as [l|]; simpl in Hin; [|contradiction].
    destruct Hin as [->|[]]. destruct loc as [p|a|g]; [exact Hloc | |].
    + apply get_location_Area_inv in Hloc. tauto.
    + apply get_location_Group_inv in Hloc. tauto.
  - apply in_map_iff in Hin as (a & <- & Ha). unfold area_matches in Ha.
    apply In_sorted_desc, In_filter_words in Ha as [Ha _].
    now apply filter_In in Ha.
  - apply in_map_iff in Hin as (g & <- & Hg). unfold group_matches in Hg.
    apply list_elem_of_In, (subseteq_take 10), list_elem_of_In in Hg.
    apply In_filter_words in Hg as [Hg _]. now apply filter_In in Hg.
Qed.
End SearchRanking.

(** ** When the containment scan raises *)

Lemma for_each_append_if_Raise {A : Type} (test : A -> result bool)
      (cands acc : list A) (e : exn) :
  for_each cands (append_if test) acc = Raise e ->
  exists c, In c cands /\ test c = Raise e.
Proof.
  revert acc. induction cands as [|c cands IH]; simpl; intros acc Hr; [discriminate|].
  destruct (test c) as [b|e'] eqn:Et.
  - rewrite (append_if_Ok _ _ _ _ Et) in Hr. cbn in Hr.
    apply IH in Hr as (c' & Hin & Hc'). eauto.
  - rewrite (append_if_Raise _ _ _ _ Et) in Hr. cbn in Hr.
    injection Hr as ->. eauto.
Qed.

Lemma for_each_nested_Raise {A K : Type} (cands : K -> list A)
      (test : A -> result bool) (keys : list K) (acc : list A) (e : exn) :
  for_each keys (fun k acc => for_each (cands k) (append_if test) acc) acc = Raise e ->
  exists k c, In k keys /\ In c (cands k) /\ test c = Raise e.
Proof.
  revert acc. induction keys as [|k keys IH]; simpl; intros acc Hr; [discriminate|].
  destruct (for_each (cands k) (append_if test) acc) as [acc'|e'] eqn:Ei; cbn in Hr.
  - apply IH in Hr as (k' & c & Hk & Hc & Ht). eauto 6.
  - injection Hr as ->. apply for_each_append_if_Raise in Ei as (c & Hc & Ht).
    eauto 6.
Qed.

(** The test raises only by dividing by a zero. *)
Lemma contains_enough_Raise (intersection_area my_area : float) (e : exn) :
  contains_enough intersection_area my_area = Raise e <->
  e = ZeroDivisionError /\ truthy intersection_area = true /\
  is_zero my_area = true.
Proof.
  unfold contains_enough, float_truediv.
  destruct (truthy intersection_area), (is_zero my_area); cbn;
    split; (intros [= <-] || intros (-> & Ht & Hz)); auto; discriminate.
Qed.

Section ScanRaises.
Context {G : Type} `{Geometry G}.
Variable db : MapData G.

(** [_get_in_areas] raises exactly when the area of the location is zero
    and a candidate (an area of the table, on the same level, of a coarser
    type) overlaps it with an area that is not; the exception is
    [ZeroDivisionError]. *)
Theorem get_in_areas_raises_iff (self : AreaLocation.t G) :
  (forall e, _get_in_areas db self = Raise e -> e = ZeroDivisionError) /\
  (_get_in_areas db self = Raise ZeroDivisionError <->
   is_zero (geom_area (AreaLocation.geometry self)) = true /\
   exists c, In c (arealocations db) /\
             AreaLocation.level c = AreaLocation.level self /\
             (AreaLocation.get_sort_key c < AreaLocation.get_sort_key self)%nat /\
             truthy (overlap_area self c) = true).
Proof.
  assert (Hraise : forall e, _get_in_areas db self = Raise e ->
    e = ZeroDivisionError /\
    is_zero (geom_area (AreaLocation.geometry self)) = true /\
    exists c, In c (arealocations db) /\
              AreaLocation.level c = AreaLocation.level self /\
              (AreaLocation.get_sort_key c < AreaLocation.get_sort_key self)%nat /\
              truthy (overlap_area self c) = true).
  { intros e He. rewrite get_in_areas_loops in He.
    apply for_each_nested_Raise in He as (t & c & Ht & Hc & Hr).
    apply contains_enough_Raise in Hr as (-> & Htruthy & Hz).
    apply In_areas_of_type_on_level in Hc as (Hin & <- & Hlvl).
    apply scanned_types_In in Ht.
    split; [reflexivity|]. split; [exact Hz|]. exists c. auto. }
  split; [intros e He; now apply Hraise in He|].
  split; [intros He; now apply Hraise in He|].
  intros (Hz & c & Hin & Hlvl & Hkey & Htruthy).
  destruct (_get_in_areas db self) as [l|e] eqn:Er.
  - exfalso. rewrite get_in_areas_loops in Er.
    apply for_each_nested_Ok in Er as [_ Htot].
    destruct (Htot (AreaLocation.location_type c) c) as [b Hb].
    + now apply scanned_types_In.
    + now apply In_areas_of_type_on_level.
    + assert (Hr : overlap_test self c = Raise ZeroDivisionError).
      { apply contains_enough_Raise. auto. }
      congruence.
  - f_equal. now apply Hraise.
Qed.
End ScanRaises.

(** ** The cached containment *)

Lemma append_inj_l (p s t : string) : p +:+ s = p +:+ t -> s = t.
Proof.
  induction p as [|c p IH]; simpl; intros E; [exact E|].
  injection E as E. auto.
Qed.

Lemma in_areas_cache_key_inj (last_update name name' : string) :
  in_areas_cache_key last_update name = in_areas_cache_key last_update name' ->
  name = name'.
Proof.
  unfold in_areas_cache_key. intros E.
  apply append_inj_l, append_inj_l in E. now apply append_inj_l in E.
Qed.

Section CachedContainmentFacts.
Context {G : Type} `{Geometry G}.
Variable db : MapData G.

Lemma cache_coherent_insert (last_update : string) (self : AreaLocation.t G)
      (cache : gmap string (list (AreaLocation.t G))) (l : list (AreaLocation.t G)) :
  (forall a, In a (arealocations db) ->
             AreaLocation.name a = AreaLocation.name self -> a = self) ->
  _get_in_areas db self = Ok l ->
  cache_coherent db last_update cache ->
  cache_coherent db last_update
    (<[in_areas_cache_key last_update (AreaLocation.name self) := l]> cache).
Proof.
  intros Huniq Hl Hcoh a l' Ha Hl'.
  destruct (String.eqb_spec (AreaLocation.name a) (AreaLocation.name self)) as [E|Hne].
  - rewrite E, lookup_insert_eq in Hl'. injection Hl' as <-.
    now rewrite (Huniq a Ha E).
  - rewrite lookup_insert_ne in Hl'; [now apply Hcoh|].
    intros E. apply in_areas_cache_key_inj in E. congruence.
Qed.

(** With a coherent cache and names that tell the areas of the table
    apart, [get_in_areas] returns what [_get_in_areas] returns, changes at
    most the entry of the area, and leaves the cache coherent. *)
Theorem get_in_areas_coherent (last_update : string) (self : AreaLocation.t G)
        (cache : gmap string (list (AreaLocation.t G))) :
  In self (arealocations db) ->
  (forall a, In a (arealocations db) ->
             AreaLocation.name a = AreaLocation.name self -> a = self) ->
  cache_coherent db last_update cache ->
  let '(r, cache') := get_in_areas db (Some last_update) self cache in
  r = _get_in_areas db self /\
  cache_coherent db last_update cache' /\
  forall key, key <> in_areas_cache_key last_update (AreaLocation.name self) ->
              cache' !! key = cache !! key.
Proof.
  intros Hself Huniq Hcoh. unfold get_in_areas.
  assert (Hmiss :
    let '(r, cache') :=
      match _get_in_areas db self with
      | Ok in_areas =>
          (Ok in_areas,
           <[in_areas_cache_key last_update (AreaLocation.name self) := in_areas]> cache)
      | Raise e => (Raise e, cache)
      end in
    r = _get_in_areas db self /\
    cache_coherent db last_update cache' /\
    forall key, key <> in_areas_cache_key last_update (AreaLocation.name self) ->
                cache' !! key = cache !! key).
  { destruct (_get_in_areas db self) as [l|e] eqn:Er.
    - split; [reflexivity|]. split.
      + now apply cache_coherent_insert.
      + intros key Hkey. now rewrite lookup_insert_ne.
    - split; [reflexivity|]. split; [exact Hcoh | reflexivity]. }
  destruct (cache !! in_areas_cache_key last_update (AreaLocation.name self))
    as [[|c l]|] eqn:Ec; [exact Hmiss | | exact Hmiss].
  split; [|split; [exact Hcoh | reflexivity]].
  symmetry. now apply Hcoh.
Qed.

(** A second call right after a first returns the same and leaves the
    cache as the first call left it; without a time stamp the cache is
    never touched. *)
Theorem get_in_areas_again (last_update : option string) (self : AreaLocation.t G)
        (cache : gmap string (list (AreaLocation.t G))) :
  let '(r, cache') := get_in_areas db last_update self cache in
  get_in_areas db last_update self cache' = (r, cache') /\
  (last_update = None -> cache' = cache).
Proof.
  unfold get_in_areas. destruct last_update as [stamp|]; [|auto].
  destruct (cache !! in_areas_cache_key stamp (AreaLocation.name self))
    as [[|c l]|] eqn:Ec.
  - destruct (_get_in_areas db self) as [[|c l]|e] eqn:Er.
    + rewrite lookup_insert_eq, insert_insert_eq. split; [reflexivity | discriminate].
    + rewrite lookup_insert_eq. split; [reflexivity | discriminate].
    + rewrite Ec. split; [reflexivity | discriminate].
  - rewrite Ec. split; [reflexivity | discriminate].
  - destruct (_get_in_areas db self) as [[|c l]|e] eqn:Er.
    + rewrite lookup_insert_eq, insert_insert_eq. split; [reflexivity | discriminate].
    + rewrite lookup_insert_eq. split; [reflexivity | discriminate].
    + rewrite Ec. split; [reflexivity | discriminate].
Qed.
End CachedContainmentFacts.

(** ** The settings of [main] *)

Section SettingsFacts.
Import Views ViewsMain.

Lemma normalise_cases (value : string) :
  (In value ["yes"; "up"; "down"; "no"] /\ normalise value = value) \/
  (ctype_mapping !! value = None /\ normalise value = "yes").
Proof.
  unfold normalise, str_in. cbn [existsb].
  destruct (String.eqb_spec value "yes") as [->|Hy];
    [left; split; [simpl; tauto | reflexivity]|].
  destruct (String.eqb_spec value "up") as [->|Hu];
    [left; split; [simpl; tauto | reflexivity]|].
  destruct (String.eqb_spec value "down") as [->|Hd];
    [left; split; [simpl; tauto | reflexivity]|].
  destruct (String.eqb_spec value "no") as [->|Hn];
    [left; split; [simpl; tauto | reflexivity]|].
  right. split; [|reflexivity]. unfold ctype_mapping.
  rewrite !lookup_insert_ne by congruence. apply lookup_empty.
Qed.

Lemma normalise_In (value : string) :
  In (normalise value) ["yes"; "up"; "down"; "no"].
Proof.
  destruct (normalise_cases value) as [[Hin ->]|[_ ->]]; [exact Hin | now left].
Qed.

(** A value that is none of the four counts as [yes]. *)
Lemma get_ctypes_normalise (prefix value : string) :
  get_ctypes prefix value = get_ctypes prefix (normalise value).
Proof.
  destruct (normalise_cases value) as [[_ ->]|[Hnone ->]]; [reflexivity|].
  unfold get_ctypes. now rewrite Hnone.
Qed.

Lemma reverse_allowed_normalised (post : gmap string string) (s e l : string) :
  let allowed := allowed_ctypes post s e l in
  reverse_ctypes allowed "stairs" = normalise (post_get post "stairs" s) /\
  reverse_ctypes allowed "escalator" = normalise (post_get post "escalators" e) /\
  reverse_ctypes allowed "elevator" = normalise (post_get post "elevators" l).
Proof.
  unfold allowed_ctypes.
  rewrite (get_ctypes_normalise "stairs"), (get_ctypes_normalise "escalator"),
    (get_ctypes_normalise "elevator").
  pose proof (normalise_In (post_get post "stairs" s)) as Hs.
  pose proof (normalise_In (post_get post "escalators" e)) as He.
  pose proof (normalise_In (post_get post "elevators" l)) as Hl.
  revert Hs He Hl.
  generalize (normalise (post_get post "stairs" s)) as vs.
  generalize (normalise (post_get post "escalators" e)) as ve.
  generalize (normalise (post_get post "elevators" l)) as vl.
  intros vl ve vs Hs He Hl. simpl in Hs, He, Hl.
  destruct Hs as [<-|[<-|[<-|[<-|[]]]]];
    destruct He as [<-|[<-|[<-|[<-|[]]]]];
    destruct Hl as [<-|[<-|[<-|[<-|[]]]]];
    repeat split; reflexivity.
Qed.

Lemma passability_effective (request : Request) :
  let '(s, e, l, _) := passability request in
  post_get (POST request) "stairs" s = effective request "stairs" /\
  post_get (POST request) "escalators" e = effective request "escalators" /\
  post_get (POST request) "elevators" l = effective request "elevators".
Proof.
  unfold passability, effective, post_get.
  destruct (COOKIES request !! "c3nav_settings") as [[t|d]|];
    destruct (String.eqb (method request) "POST");
    destruct (POST request !! "stairs"), (POST request !! "escalators"),
      (POST request !! "elevators"); simpl; auto.
Qed.

Lemma settings_normalised_aux (request : Request) :
  let st := settings request in
  stairs st = normalise (effective request "stairs") /\
  escalators st = normalise (effective request "escalators") /\
  elevators st = normalise (effective request "elevators") /\
  In (stairs st) ["yes"; "up"; "down"; "no"] /\
  In (escalators st) ["yes"; "up"; "down"; "no"] /\
  In (elevators st) ["yes"; "up"; "down"; "no"] /\
  allowed st = [""] ++ get_ctypes "stairs" (effective request "stairs")
                    ++ get_ctypes "escalator" (effective request "escalators")
                    ++ get_ctypes "elevator" (effective request "elevators").
Proof.
  unfold settings. pose proof (passability_effective request) as Heff.
  destruct (passability request) as [[[s e] l] sv].
  destruct Heff as (Hs & He & Hl).
  destruct (reverse_allowed_normalised (POST request) s e l) as (Rs & Re & Rl).
  cbn [stairs escalators elevators allowed].
  rewrite Rs, Re, Rl, Hs, He, Hl.
  repeat split; try apply normalise_In.
  unfold allowed_ctypes. now rewrite Hs, He, Hl, <- !app_assoc.
Qed.

(** The settings that [main] shows and saves are each one of [yes], [up],
    [down] and [no]: the value that counts (form before cookie before the
    default [yes], whatever the method of the request) if it is one of the
    four, and [yes] otherwise; and the allowed connection types are those
    of the values that count. *)
Theorem settings_normalised (request : Request) :
  let st := settings request in
  stairs st = normalise (effective request "stairs") /\
  escalators st = normalise (effective request "escalators") /\
  elevators st = normalise (effective request "elevators") /\
  In (stairs st) ["yes"; "up"; "down"; "no"] /\
  In (escalators st) ["yes"; "up"; "down"; "no"] /\
  In (elevators st) ["yes"; "up"; "down"; "no"] /\
  allowed st = [""] ++ get_ctypes "stairs" (effective request "stairs")
                    ++ get_ctypes "escalator" (effective request "escalators")
                    ++ get_ctypes "elevator" (effective request "elevators").
Proof. exact (settings_normalised_aux request). Qed.

(** What a response saves, the next request reads back: with the three
    settings of [st] in a dictionary cookie and no form, the settings and
    the allowed connection types are those of [st] again. *)
Theorem settings_saved_read_back (request next : Request) (d : gmap string string) :
  let st := settings request in
  POST next = ∅ ->
  COOKIES next !! "c3nav_settings" = Some (CookieDict d) ->
  d !! "stairs" = Some (stairs st) ->
  d !! "escalators" = Some (escalators st) ->
  d !! "elevators" = Some (elevators st) ->
  stairs (settings next) = stairs st /\
  escalators (settings next) = escalators st /\
  elevators (settings next) = elevators st /\
  allowed (settings next) = allowed st.
Proof.
  intros st Hpost Hcookie Ds De Dl.
  assert (Heff : effective next "stairs" = stairs st /\
                 effective next "escalators" = escalators st /\
                 effective next "elevators" = elevators st).
  { unfold effective. rewrite Hpost, Hcookie, !lookup_empty, Ds, De, Dl.
    repeat split; reflexivity. }
  assert (Hfix : forall v, In v ["yes"; "up"; "down"; "no"] -> normalise v = v).
  { intros v Hv. simpl in Hv.
    destruct Hv as [<-|[<-|[<-|[<-|[]]]]]; reflexivity. }
  destruct Heff as (Es & Ee & El).
  destruct (settings_normalised_aux request) as (Hs & He & Hl & Is & Ie & Il & Ha).
  destruct (settings_normalised_aux next) as (Hs' & He' & Hl' & _ & _ & _ & Ha').
  fold st in Hs, He, Hl, Is, Ie, Il, Ha.
  rewrite Hs', He', Hl', Ha', Es, Ee, El, !Hfix by assumption.
  repeat split. rewrite Ha, Hs, He, Hl.
  now rewrite <- !get_ctypes_normalise.
Qed.
End SettingsFacts.

(** ** Reading and writing package files *)

Section PackageFileFacts.
Import PackageFile.

Lemma dict_get_set_eq (d : dict) (key : string) (value : json) :
  dict_get (dict_set d key value) key = Some value.
Proof.
  induction d as [|[k v] d IH]; simpl.
  - now rewrite String.eqb_refl.
  - destruct (String.eqb_spec k key) as [->|Hne]; simpl.
    + now rewrite String.eqb_refl.
    + apply String.eqb_neq in Hne. now rewrite Hne.
Qed.

Lemma dict_get_set_ne (d : dict) (key key' : string) (value : json) :
  key <> key' -> dict_get (dict_set d key value) key' = dict_get d key'.
Proof.
  intros Hne. induction d as [|[k v] d IH]; simpl.
  - apply String.eqb_neq in Hne. now rewrite Hne.
  - destruct (String.eqb_spec k key) as [->|Hk]; simpl; [|now rewrite IH].
    apply String.eqb_neq in Hne. now rewrite Hne.
Qed.

Lemma dict_get_move_to_end (d d' : dict) (key key' : string) :
  dict_move_to_end d key = Parsed d' -> dict_get d' key' = dict_get d key'.
Proof.
  unfold dict_move_to_end. destruct (dict_get d key) as [value|] eqn:Eg; [|discriminate].
  intros [= <-]. destruct (String.eqb_spec key key') as [<-|Hne].
  - rewrite Eg. clear Eg. induction d as [|[k v] d IH]; simpl.
    + now rewrite String.eqb_refl.
    + destruct (String.eqb_spec k key) as [->|Hk]; simpl; [exact IH|].
      apply String.eqb_neq in Hk. now rewrite Hk.
  - clear Eg. induction d as [|[k v] d IH]; simpl.
    + apply String.eqb_neq in Hne. now rewrite Hne.
    + destruct (String.eqb_spec k key) as [->|Hk]; simpl.
      * apply String.eqb_neq in Hne. now rewrite Hne.
      * destruct (String.eqb k key'); [reflexivity | exact IH].
Qed.

Lemma valid_titles_checks (items : list (string * json)) :
  valid_titles items <->
  existsb (fun item => negb (is_string (snd item))) items = false /\
  existsb (fun item => is_empty_string (snd item)) items = false.
Proof.
  unfold valid_titles. induction items as [|[lang title] items IH]; simpl.
  - split; [auto | intros _ ? ? []].
  - rewrite !orb_false_iff, negb_false_iff. split.
    + intros Hall. destruct (Hall lang title) as (s & -> & Hs); [now left|].
      assert (Hrest : forall l t, In (l, t) items -> exists s', t = JString s' /\ s' <> "")
        by (intros l t Hlt; apply (Hall l t); now right).
      apply IH in Hrest as [H1 H2]. simpl.
      apply String.eqb_neq in Hs. auto.
    + intros [[Hstr H1] [Hemp H2]] l t [[= <- <-]|Hin].
      * destruct title; try discriminate Hstr. simpl in Hemp.
        apply String.eqb_neq in Hemp. eauto.
      * destruct IH as [_ IHb]. exact (IHb (conj H1 H2) l t Hin).
Qed.

Lemma not_in_choices_valid (value : json) (choices : list (string * string)) :
  not_in_choices value choices = Parsed false <->
  exists s, value = JString s /\ In s (map fst choices).
Proof.
  destruct value; simpl; split; try discriminate;
    try (intros (s' & E & _); discriminate E).
  - intros [= E]. apply negb_false_iff, str_in_In in E. eauto.
  - intros (s' & [= <-] & Hin). apply str_in_In in Hin. now rewrite Hin.
Qed.

Variable super_fromfile : dict -> parsed dict.

Lemma mixin_fromfile_accepts (data kwargs : dict) :
  mixin_fromfile super_fromfile data = Parsed kwargs <->
  exists base items b inclusion,
    super_fromfile data = Parsed base /\
    dict_get data "titles" = Some (JObject items) /\ valid_titles items /\
    dict_get data "can_search" = Some (JBool b) /\
    dict_get data "routing_inclusion" = Some (JString inclusion) /\
    In inclusion (map fst LOCATION_ROUTING_INCLUSION) /\
    kwargs = dict_set (dict_set (dict_set base "titles" (JObject items))
                                "can_search" (JBool b))
                      "routing_inclusion" (JString inclusion).
Proof.
  unfold mixin_fromfile. split.
  - destruct (super_fromfile data) as [base|e]; cbn; [|discriminate].
    destruct (dict_get data "titles") as [[| | | | | |items]|]; try discriminate.
    destruct (existsb _ items) eqn:E1; [discriminate|].
    destruct (existsb (fun item => is_empty_string (snd item)) items) eqn:E2;
      [discriminate|].
    destruct (dict_get data "can_search") as [[|b| | | | |]|]; try discriminate.
    destruct (dict_get data "routing_inclusion") as [inclusion|]; [|discriminate].
    destruct (not_in_choices inclusion LOCATION_ROUTING_INCLUSION) as [[]|] eqn:En;
      cbn; try discriminate.
    apply not_in_choices_valid in En as (s & -> & Hs). intros [= <-].
    exists base, items, b, s. repeat split; try assumption.
    apply valid_titles_checks. auto.
  - intros (base & items & b & inclusion & -> & -> & Hv & -> & -> & Hin & ->).
    apply valid_titles_checks in Hv as [Hv1 Hv2].
    assert (En : not_in_choices (JString inclusion) LOCATION_ROUTING_INCLUSION
                 = Parsed false) by (apply not_in_choices_valid; eauto).
    cbn [mbind parsed_bind]. rewrite Hv1, Hv2, En. reflexivity.
Qed.

(** [LocationModelMixin.fromfile] accepts exactly the records whose titles
    are an object of non-empty strings, whose [can_search] is a boolean and
    whose [routing_inclusion] is one of the four choices (and which the
    classes above accept); the keyword arguments then carry these three
    fields of the record as they are. *)
Theorem mixin_fromfile_accepts_iff (data kwargs : dict) :
  (mixin_fromfile super_fromfile data = Parsed kwargs <->
   exists base items b inclusion,
     super_fromfile data = Parsed base /\
     dict_get data "titles" = Some (JObject items) /\ valid_titles items /\
     dict_get data "can_search" = Some (JBool b) /\
     dict_get data "routing_inclusion" = Some (JString inclusion) /\
     In inclusion ["default"; "allow_avoid"; "allow_include"; "needs_permission"] /\
     kwargs = dict_set (dict_set (dict_set base "titles" (JObject items))
                                 "can_search" (JBool b))
                       "routing_inclusion" (JString inclusion)) /\
  (mixin_fromfile super_fromfile data = Parsed kwargs ->
   dict_get kwargs "titles" = dict_get data "titles" /\
   dict_get kwargs "can_search" = dict_get data "can_search" /\
   dict_get kwargs "routing_inclusion" = dict_get data "routing_inclusion").
Proof.
  split; [apply mixin_fromfile_accepts|].
  intros Hok.
  apply mixin_fromfile_accepts in Hok
    as (base & items & b & inclusion & _ & -> & _ & -> & -> & _ & ->).
  rewrite dict_get_set_eq, !dict_get_set_ne, !dict_get_set_eq by discriminate.
  rewrite dict_get_set_ne, dict_get_set_eq by discriminate. auto.
Qed.

Lemma area_fromfile_accepts (data kwargs : dict) :
  area_fromfile super_fromfile data = Parsed kwargs <->
  exists kwargs0 groups location_type can_search b,
    mixin_fromfile super_fromfile data = Parsed kwargs0 /\
    default (JList []) (dict_get data "groups") = JList groups /\
    dict_get data "location_type" = Some (JString location_type) /\
    In location_type (map fst LOCATION_TYPES) /\
    dict_get data "can_search" = Some can_search /\
    dict_get data "can_describe" = Some (JBool b) /\
    kwargs = dict_set (dict_set (dict_set (dict_set kwargs0
                 "groups" (JList groups))
                 "location_type" (JString location_type))
                 "can_search" can_search)
                 "can_describe" (JBool b).
Proof.
  unfold area_fromfile. split.
  - destruct (mixin_fromfile super_fromfile data) as [kwargs0|e]; cbn; [|discriminate].
    destruct (default (JList []) (dict_get data "groups")) as [| | | | |groups|];
      try discriminate.
    destruct (dict_get data "location_type") as [location_type|]; [|discriminate].
    destruct (not_in_choices location_type LOCATION_TYPES) as [[]|] eqn:En;
      cbn; try discriminate.
    apply not_in_choices_valid in En as (s & -> & Hs).
    destruct (dict_get data "can_search") as [[|b'| | | | |]|]; try discriminate.
    destruct (dict_get data "can_describe") as [[|b| | | | |]|]; try discriminate.
    intros [= <-]. exists kwargs0, groups, s, (JBool b'), b. auto 10.
  - intros (kwargs0 & groups & lt & cs & b & Hm & Hg & Hlt & Hin & Hcs & Hcd & ->).
    rewrite Hm. cbn [mbind parsed_bind]. rewrite Hg, Hlt.
    assert (En : not_in_choices (JString lt) LOCATION_TYPES = Parsed false)
      by (apply not_in_choices_valid; eauto).
    rewrite En. cbn [mbind parsed_bind].
    apply mixin_fromfile_accepts in Hm
      as (_ & _ & b' & _ & _ & _ & _ & Hcs' & _).
    rewrite Hcs' in Hcs. injection Hcs as <-.
    now rewrite Hcs', Hcd.
Qed.

(** [AreaLocation.fromfile] accepts exactly the records that
    [LocationModelMixin.fromfile] accepts, whose [groups] are absent or a
    list, whose [location_type] is one of the five types and whose
    [can_describe] is a boolean; [groups] defaults to the empty list. *)
Theorem area_fromfile_accepts_iff (data kwargs : dict) :
  area_fromfile super_fromfile data = Parsed kwargs <->
  exists kwargs0 groups location_type can_search b,
    mixin_fromfile super_fromfile data = Parsed kwargs0 /\
    (dict_get data "groups" = Some (JList groups) \/
     dict_get data "groups" = None /\ groups = []) /\
    dict_get data "location_type" = Some (JString location_type) /\
    In location_type ["level"; "area"; "room"; "roomsegment"; "poi"] /\
    dict_get data "can_search" = Some can_search /\
    dict_get data "can_describe" = Some (JBool b) /\
    kwargs = dict_set (dict_set (dict_set (dict_set kwargs0
                 "groups" (JList groups))
                 "location_type" (JString location_type))
                 "can_search" can_search)
                 "can_describe" (JBool b).
Proof.
  rewrite area_fromfile_accepts. split.
  - intros (kw0 & groups & lt & cs & b & Hm & Hg & Hrest).
    exists kw0, groups, lt, cs, b. split; [exact Hm|]. split; [|exact Hrest].
    destruct (dict_get data "groups") as [g|]; simpl in Hg.
    + left. now rewrite Hg.
    + right. split; [reflexivity|]. now injection Hg.
  - intros (kw0 & groups & lt & cs & b & Hm & Hg & Hrest).
    exists kw0, groups, lt, cs, b. split; [exact Hm|]. split; [|exact Hrest].
    destruct Hg as [->|[-> ->]]; reflexivity.
Qed.

(** The second check of [can_search], in [AreaLocation.fromfile], never
    fails: when that function rejects a record for its [can_search], it is
    [LocationModelMixin.fromfile] that did. *)
Theorem area_fromfile_can_search_checked_before (data : dict) (message : string) :
  In message ["Missing can_search"; "can_search has to be boolean!"] ->
  area_fromfile super_fromfile data = Rejected (FileValueError message) ->
  mixin_fromfile super_fromfile data = Rejected (FileValueError message).
Proof.
  intros Hmsg. unfold area_fromfile.
  destruct (mixin_fromfile super_fromfile data) as [kwargs0|e] eqn:Em;
    cbn [mbind parsed_bind]; [|now intros [= ->]].
  apply mixin_fromfile_accepts in Em
    as (_ & _ & b' & _ & _ & _ & _ & Hcs & _).
  rewrite Hcs. intros Hrej. exfalso.
  simpl in Hmsg. destruct Hmsg as [<-|[<-|[]]];
    destruct (default (JList []) (dict_get data "groups")) as [| | | | |groups|];
    try discriminate Hrej;
    destruct (dict_get data "location_type") as [[| | | |s| |]|];
    cbn in Hrej; try discriminate Hrej;
    destruct (negb _); cbn in Hrej; try discriminate Hrej;
    destruct (dict_get data "can_describe") as [[|b| | | | |]|];
    discriminate Hrej.
Qed.

(** A [routing_inclusion] that is a list or an object is rejected with a
    [TypeError], not with the [ValueError] of the other invalid values: the
    membership test cannot hash it. *)
Theorem mixin_fromfile_unhashable_inclusion (data base : dict)
        (items : list (string * json)) (b : bool) (inclusion : json) :
  super_fromfile data = Parsed base ->
  dict_get data "titles" = Some (JObject items) -> valid_titles items ->
  dict_get data "can_search" = Some (JBool b) ->
  dict_get data "routing_inclusion" = Some inclusion ->
  mixin_fromfile super_fromfile data
  = match inclusion with
    | JList _ => Rejected (FileTypeError "unhashable type: 'list'")
    | JObject _ => Rejected (FileTypeError "unhashable type: 'dict'")
    | JString s =>
        if str_in s ["default"; "allow_avoid"; "allow_include"; "needs_permission"]
        then Parsed (dict_set (dict_set (dict_set base "titles" (JObject items))
                                        "can_search" (JBool b))
                              "routing_inclusion" inclusion)
        else Rejected (FileValueError "Invalid routing inclusion")
    | _ => Rejected (FileValueError "Invalid routing inclusion")
    end.
Proof.
  intros Hs Ht Hv Hc Hr. unfold mixin_fromfile.
  apply valid_titles_checks in Hv as [Hv1 Hv2].
  rewrite Hs. cbn [mbind parsed_bind]. rewrite Ht, Hv1, Hv2, Hc, Hr.
  destruct inclusion as [| | | |s| |]; try reflexivity.
  unfold not_in_choices. cbn [mbind parsed_bind].
  change (map fst LOCATION_ROUTING_INCLUSION)
    with ["default"; "allow_avoid"; "allow_include"; "needs_permission"].
  now destruct (str_in s _).
Qed.

Lemma In_insert_sorted {A : Type} (leb : A -> A -> bool) (a x : A) (l : list A) :
  In x (insert_sorted leb a l) <-> x = a \/ In x l.
Proof.
  induction l as [|b l IH]; simpl; [intuition|].
  destruct (leb a b); simpl; rewrite ?IH; intuition.
Qed.

Lemma In_sorted {A : Type} (leb : A -> A -> bool) (x : A) (l : list A) :
  In x (sorted leb l) <-> In x l.
Proof.
  unfold sorted. induction l as [|a l IH]; simpl; [tauto|].
  rewrite In_insert_sorted, IH. intuition.
Qed.

Lemma titles_object_valid (titles : Titles) :
  (forall lang title, In (lang, title) titles -> title <> "") ->
  exists items, titles_object titles = JObject items /\ valid_titles items.
Proof.
  intros Hne. eexists. split; [reflexivity|].
  intros lang title Hin. apply in_map_iff in Hin as ([l s] & [= <- <-] & Hin).
  apply In_sorted in Hin. exists s. split; [reflexivity|]. now apply (Hne l).
Qed.

(** What [AreaLocation.tofile] writes, [AreaLocation.fromfile] accepts and
    reads back: for an area whose titles are not empty and whose routing
    inclusion is one of the four choices, the keyword arguments hold the
    titles (sorted), the sorted groups, the location type and the three
    flags of the area. *)
Theorem area_tofile_fromfile {G : Type} (super_tofile : dict)
        (self : AreaLocation.t G) (out base : dict) :
  area_tofile super_tofile self = Parsed out ->
  super_fromfile out = Parsed base ->
  (forall lang title, In (lang, title) (AreaLocation.titles self) -> title <> "") ->
  In (AreaLocation.routing_inclusion self)
     ["default"; "allow_avoid"; "allow_include"; "needs_permission"] ->
  exists kwargs,
    area_fromfile super_fromfile out = Parsed kwargs /\
    dict_get kwargs "titles" = Some (titles_object (AreaLocation.titles self)) /\
    dict_get kwargs "can_search" = Some (JBool (AreaLocation.can_search self)) /\
    dict_get kwargs "routing_inclusion"
    = Some (JString (AreaLocation.routing_inclusion self)) /\
    dict_get kwargs "groups"
    = Some (JList (map JString (sorted String.leb (AreaLocation.groups self)))) /\
    dict_get kwargs "location_type"
    = Some (JString (location_type_name (AreaLocation.location_type self))) /\
    dict_get kwargs "can_describe" = Some (JBool (AreaLocation.can_describe self)).
Proof.
  intros Hout Hsuper Htitles Hincl.
  destruct (titles_object_valid _ Htitles) as (items & Eitems & Hvalid).
  assert (Hget : forall key,
    dict_get out key
    = dict_get
        (dict_set (dict_set (dict_set (dict_set
          (mixin_tofile super_tofile (AreaLocation.titles self)
             (AreaLocation.can_search self) (AreaLocation.routing_inclusion self))
          "groups" (JList (map JString (sorted String.leb (AreaLocation.groups self)))))
          "location_type"
          (JString (location_type_name (AreaLocation.location_type self))))
          "can_search" (JBool (AreaLocation.can_search self)))
          "can_describe" (JBool (AreaLocation.can_describe self))) key).
  { intros key. exact (dict_get_move_to_end _ _ _ key Hout). }
  unfold mixin_tofile in Hget.
  assert (Ht : dict_get out "titles" = Some (JObject items)).
  { rewrite Hget, !dict_get_set_ne, dict_get_set_eq by discriminate.
    now rewrite Eitems. }
  assert (Hcs : dict_get out "can_search" = Some (JBool (AreaLocation.can_search self))).
  { now rewrite Hget, dict_get_set_ne, dict_get_set_eq by discriminate. }
  assert (Hri : dict_get out "routing_inclusion"
                = Some (JString (AreaLocation.routing_inclusion self))).
  { now rewrite Hget, !dict_get_set_ne, dict_get_set_eq by discriminate. }
  assert (Hg : dict_get out "groups"
               = Some (JList (map JString (sorted String.leb (AreaLocation.groups self))))).
  { now rewrite Hget, !dict_get_set_ne, dict_get_set_eq by discriminate. }
  assert (Hlt : dict_get out "location_type"
                = Some (JString (location_type_name (AreaLocation.location_type self)))).
  { now rewrite Hget, !dict_get_set_ne, dict_get_set_eq by discriminate. }
  assert (Hcd : dict_get out "can_describe"
                = Some (JBool (AreaLocation.can_describe self))).
  { now rewrite Hget, dict_get_set_eq. }
  eexists. split.
  - apply area_fromfile_accepts. eexists _, _, _, _, _.
    split; [|split; [|split; [|split; [|split; [|split]]]]].
    + apply mixin_fromfile_accepts. eexists base, items, _, _.
      repeat split; eassumption.
    + rewrite Hg. reflexivity.
    + exact Hlt.
    + destruct (AreaLocation.location_type self); simpl; tauto.
    + exact Hcs.
    + exact Hcd.
    + reflexivity.
  - rewrite Eitems.
    repeat split;
      rewrite ?dict_get_set_eq;
      repeat (rewrite dict_get_set_ne by discriminate; rewrite ?dict_get_set_eq);
      reflexivity.
Qed.
End PackageFileFacts.

(** ** The describing area and the head of [main] *)

(** The description of a point names an area of the nearest point that may
    describe a position, and none is of a finer type; without such an area
    the list is empty. *)
Theorem description_locations_finest {G : Type} (db : MapData G)
        (point_arealocations : list string) :
  let candidate a :=
    In a (arealocations db) /\ In (AreaLocation.name a) point_arealocations /\
    AreaLocation.can_describe a = true in
  match description_locations db point_arealocations with
  | [] => forall a, ~ candidate a
  | location :: _ =>
      candidate location /\
      forall a, candidate a ->
                (AreaLocation.get_sort_key a <= AreaLocation.get_sort_key location)%nat
  end.
Proof.
  intros candidate.
  assert (Hin : forall a, In a (description_locations db point_arealocations)
                          <-> candidate a).
  { intros a. unfold description_locations, candidate.
    rewrite In_sorted_desc, filter_In, andb_true_iff, str_in_In. tauto. }
  pose proof (sorted_desc_sorted AreaLocation.get_sort_key
    (List.filter (fun a => str_in (AreaLocation.name a) point_arealocations
                           && AreaLocation.can_describe a)
                 (arealocations db))) as Hs.
  fold (description_locations db point_arealocations) in Hs.
  destruct (description_locations db point_arealocations) as [|location rest].
  - intros a Ha. now apply Hin in Ha.
  - split; [apply Hin; now left|].
    intros a Ha. apply Hin in Ha as [<-|Ha]; [lia|].
    apply StronglySorted_inv in Hs as [_ Hall].
    rewrite List.Forall_forall in Hall. now apply Hall.
Qed.

Section HeadFacts.
Import ViewsHead.
Context {G : Type} `{Geometry G}.
Variable Request : Type.
Variable area_visible : Request -> AreaLocation.t G -> bool.
Variable group_visible : Request -> LocationGroup.t -> bool.
Variable db : MapData G.

Lemma get_location_or_404_Returned (request : Request) (given : option string)
      (got : option (Location G)) :
  get_location_or_404 Request area_visible group_visible db request given
  = Returned got <->
  resolved Request area_visible group_visible db request given got.
Proof.
  unfold get_location_or_404, resolved. destruct given as [name|].
  - destruct (get_location _ _ _ _ _ _) as [[loc|]|e]; split;
      try discriminate; try (intros (l & E & _); discriminate E).
    + intros [= <-]. eauto.
    + intros (l & [= <-] & ->). reflexivity.
  - split; [intros [= <-]; reflexivity | intros ->; reflexivity].
Qed.

(** [main] gets past its first lines exactly when every identifier that is
    given resolves; the mode is then [location] when neither an origin nor
    a destination is given and [route] otherwise, and the active field is
    the end of the route that is missing: [location] without both,
    nothing with both. *)
Theorem main_head_returns_iff (request : Request)
        (location origin destination : option string) (ctx : PageContext G) :
  main_head Request area_visible group_visible db request location origin destination
  = Returned ctx <->
  resolved Request area_visible group_visible db request location (ViewsHead.location ctx) /\
  resolved Request area_visible group_visible db request origin (ViewsHead.origin ctx) /\
  resolved Request area_visible group_visible db request destination
           (ViewsHead.destination ctx) /\
  mode ctx = match origin, destination with
             | None, None => "location"
             | _, _ => "route"
             end /\
  active_field ctx = match origin, destination with
                     | None, None => Some "location"
                     | Some _, None => Some "destination"
                     | None, Some _ => Some "origin"
                     | Some _, Some _ => None
                     end.
Proof.
  unfold main_head. split.
  - destruct (get_location_or_404 _ _ _ _ request location) as [l|] eqn:El;
      cbn [mbind outcome_bind]; [|discriminate].
    destruct (get_location_or_404 _ _ _ _ request origin) as [o|] eqn:Eo;
      cbn [mbind outcome_bind]; [|discriminate].
    destruct (get_location_or_404 _ _ _ _ request destination) as [d|] eqn:Ed;
      cbn [mbind outcome_bind]; [|discriminate].
    apply get_location_or_404_Returned in El, Eo, Ed.
    intros [= <-]. cbn. repeat split; try assumption.
    + destruct origin, destination, o, d; simpl in *;
        try reflexivity; try discriminate;
        try (destruct Eo as (? & _ & [=])); try (destruct Ed as (? & _ & [=])).
    + destruct origin, destination, o, d; simpl in *;
        try reflexivity; try discriminate;
        try (destruct Eo as (? & _ & [=])); try (destruct Ed as (? & _ & [=])).
  - destruct ctx as [l o d m af]. cbn. intros (Hl & Ho & Hd & -> & ->).
    apply get_location_or_404_Returned in Hl, Ho, Hd. rewrite Hl, Ho, Hd.
    cbn [mbind outcome_bind]. f_equal.
    apply get_location_or_404_Returned in Ho, Hd.
    destruct origin, destination, o, d; simpl in *;
      try reflexivity; try discriminate;
      try (destruct Ho as (? & _ & [=])); try (destruct Hd as (? & _ & [=])).
Qed.
End HeadFacts.

(** ** The further properties on the example data *)

Section MoreExampleFacts.
Import Example MoreExamples PackageFile ViewsMain.

Lemma example_area_names_distinct (a b : AreaLocation.t Rect.t) :
  In a (arealocations Example.db) -> In b (arealocations Example.db) ->
  AreaLocation.name a = AreaLocation.name b -> a = b.
Proof.
  intros Ha Hb. simpl in Ha, Hb.
  repeat (destruct Ha as [<-|Ha]; [|]); try contradiction;
    repeat (destruct Hb as [<-|Hb]; [|]); try contradiction;
    intros E; try reflexivity; discriminate E.
Qed.

Lemma get_location_sound_witness :
  match_coord "room1" = None /\ startswith "room1" "g:" = false /\
  "room1" = AreaLocation.location_id room1 /\
  In room1 (arealocations Example.db) /\ true = true.
Proof.
  apply (get_location_sound unit everything everything Example.db tt "room1"
           (Area room1)).
  vm_compute. reflexivity.
Defined.

Lemma get_location_shadowed_area_witness :
  In shadowed (arealocations shadowing_db) /\
  get_location unit everything everything shadowing_db tt
    (AreaLocation.location_id shadowed) = Ok (Some (Group staff)) /\
  get_location unit everything everything shadowing_db tt
    (AreaLocation.location_id shadowed) <> Ok (Some (Area shadowed)).
Proof.
  split; [now left|]. split; [vm_compute; reflexivity|].
  apply (get_location_shadowed_area unit everything everything shadowing_db tt
           (AreaLocation.location_id shadowed) shadowed).
  left. reflexivity.
Defined.

Lemma group_location_id_roundtrip_witness :
  get_location unit everything everything Example.db tt "g:staff"
  = Ok (Some (Group staff)).
Proof.
  apply (group_location_id_roundtrip unit everything everything Example.db tt staff).
  - simpl. tauto.
  - reflexivity.
  - intros g' Hg'. simpl in Hg'.
    destruct Hg' as [<-|[<-|[]]]; intros E; [reflexivity | discriminate E].
Defined.

Lemma area_location_id_roundtrip_witness :
  get_location unit everything everything Example.db tt "room1"
  = Ok (Some (Area room1)).
Proof.
  apply (area_location_id_roundtrip unit everything everything Example.db tt room1).
  - simpl. tauto.
  - reflexivity.
  - intros a' Ha' E. apply example_area_names_distinct; [exact Ha' | simpl; tauto | exact E].
  - reflexivity.
  - reflexivity.
Defined.

Lemma point_roundtrip_when_printed_exact_witness :
  exists p id,
    point_of_raw ground 150 250 = Ok p /\
    PointLocation.location_id p = Ok id /\
    get_location unit everything everything Example.db tt id = Ok (Some (Point p)).
Proof.
  apply (point_roundtrip_when_printed_exact unit everything everything Example.db
           tt ground 150 250).
  - vm_compute. reflexivity.
  - vm_compute. reflexivity.
  - lia.
  - lia.
  - vm_compute. reflexivity.
  - vm_compute. reflexivity.
Defined.

Lemma search_location_visible_witness :
  In room1 (arealocations Example.db) /\ true = true.
Proof.
  apply (search_location_visible unit everything everything Example.db tt "room1"
           [Area room1; Area room1] (Area room1)).
  - vm_compute. reflexivity.
  - left. reflexivity.
Defined.

Lemma search_words_tokens_witness :
  String.concat " " (search_words "room  one") = "room  one".
Proof.
  destruct (search_words_tokens "room  one") as (_ & _ & Hjoin).
  apply Hjoin. vm_compute. lia.
Defined.

Lemma get_in_areas_coherent_witness :
  cache_coherent Example.db stamp warm /\
  get_in_areas Example.db (Some stamp) room1 warm = (Ok [building; floor0], warm) /\
  let '(r, cache') := get_in_areas Example.db (Some stamp) room1 warm in
  r = _get_in_areas Example.db room1 /\
  cache_coherent Example.db stamp cache' /\
  forall key, key <> in_areas_cache_key stamp "room1" ->
              cache' !! key = warm !! key.
Proof.
  assert (Huniq : forall a, In a (arealocations Example.db) ->
                    AreaLocation.name a = AreaLocation.name room1 -> a = room1).
  { intros a Ha E.
    apply example_area_names_distinct; [exact Ha | simpl; tauto | exact E]. }
  assert (Hwarm : cache_coherent Example.db stamp warm).
  { apply (cache_coherent_insert Example.db stamp room1 ∅ [building; floor0] Huniq).
    - vm_compute. reflexivity.
    - intros a l _ Hl. rewrite lookup_empty in Hl. discriminate Hl. }
  split; [exact Hwarm|]. split.
  { unfold get_in_areas, warm. cbn [AreaLocation.name room1 mk_area].
    now rewrite lookup_insert_eq. }
  apply (get_in_areas_coherent Example.db stamp room1 warm).
  - simpl. tauto.
  - exact Huniq.
  - exact Hwarm.
Defined.

Lemma settings_saved_read_back_witness :
  stairs (settings returning) = "no" /\
  escalators (settings returning) = "yes" /\
  elevators (settings returning) = "yes" /\
  allowed (settings returning) = allowed (settings saving).
Proof.
  apply (settings_saved_read_back saving returning
           (<["stairs" := "no"]> (<["escalators" := "yes"]>
            (<["elevators" := "yes"]> ∅)))).
  - reflexivity.
  - reflexivity.
  - vm_compute. reflexivity.
  - vm_compute. reflexivity.
  - vm_compute. reflexivity.
Defined.

Lemma mixin_fromfile_accepts_iff_witness :
  exists kwargs,
    mixin_fromfile accept_all staff_record = Parsed kwargs /\
    dict_get kwargs "titles" = dict_get staff_record "titles".
Proof.
  eexists. split; [vm_compute; reflexivity|].
  destruct (mixin_fromfile_accepts_iff accept_all staff_record
              (dict_set (dict_set (dict_set [] "titles"
                 (JObject [("en", JString "Staff")])) "can_search" (JBool true))
                 "routing_inclusion" (JString "default"))) as [_ Hfields].
  destruct Hfields as (Ht & _); [vm_compute; reflexivity | exact Ht].
Defined.

Lemma area_fromfile_can_search_checked_before_witness :
  mixin_fromfile accept_all titles_only
  = Rejected (FileValueError "Missing can_search").
Proof.
  apply (area_fromfile_can_search_checked_before accept_all titles_only
           "Missing can_search").
  - left. reflexivity.
  - vm_compute. reflexivity.
Defined.

Lemma mixin_fromfile_unhashable_inclusion_witness :
  mixin_fromfile accept_all listed_inclusion
  = Rejected (FileTypeError "unhashable type: 'list'").
Proof.
  apply (mixin_fromfile_unhashable_inclusion accept_all listed_inclusion []
           [("en", JString "Room One")] true (JList [JString "default"])).
  - reflexivity.
  - reflexivity.
  - intros lang title [[= <- <-]|[]]. exists "Room One". split; [reflexivity | discriminate].
  - reflexivity.
  - reflexivity.
Defined.

Lemma area_tofile_fromfile_witness :
  exists out kwargs,
    area_tofile room1_base room1 = Parsed out /\
    area_fromfile accept_all out = Parsed kwargs /\
    dict_get kwargs "location_type" = Some (JString "room") /\
    dict_get kwargs "titles" = Some (JObject [("en", JString "Room One")]).
Proof.
  eexists.
  destruct (area_tofile_fromfile accept_all room1_base room1
              _ [] eq_refl eq_refl) as (kwargs & Hk & Ht & _ & _ & _ & Hl & _).
  - intros lang title [[= <- <-]|[]]. discriminate.
  - left. reflexivity.
  - exists kwargs. split; [reflexivity|]. split; [exact Hk|].
    split; [exact Hl | exact Ht].
Defined.

Lemma get_location_trailing_newline_witness :
  get_location unit everything everything Example.db tt
    ("c:" +:+ "ground" +:+ ":" +:+ "150" +:+ ":" +:+ "250" +:+ newline)
  = get_location unit everything everything Example.db tt
      ("c:" +:+ "ground" +:+ ":" +:+ "150" +:+ ":" +:+ "250").
Proof.
  apply (get_location_trailing_newline unit everything everything Example.db tt
           "ground" "150" "250"); (discriminate || reflexivity).
Defined.

End MoreExampleFacts.
